(** * The mhl command engines: seal, check and record

    A shallow embedding of [mhl/commands.py].  The commands are written
    against collaborators that live in other modules of the package
    (history, generator, hasher, traverse, logger); those appear here as
    the fields of an [Environment], and the commands themselves are
    functions in a small state-and-exception monad over the effects an
    invocation can have: log output, generation sessions opened and
    generations persisted. *)

From Stdlib Require Import ZArith Ascii String.
From stdpp Require Import base gmap strings list.

Open Scope string_scope.
Open Scope list_scope.

(* set_solver clears hypotheses it has already used up. *)
Set Warnings "-clear-no-such-hyp".

(** ** posixpath *)

Module Posix.

Definition sep : string := "/".

Fixpoint endswith_sep (s : string) : bool :=
  match s with
  | EmptyString => false
  | String c EmptyString => bool_decide (c = "/"%char)
  | String _ rest => endswith_sep rest
  end.

(** [os.path.isabs]: the path starts with the separator. *)
Definition isabs (s : string) : bool := String.prefix sep s.

(** [os.path.join(a, b)] for two components. *)
Definition join (a b : string) : string :=
  if String.prefix sep b then b
  else if bool_decide (a = "") || endswith_sep a then a +:+ b
  else a +:+ sep +:+ b.

End Posix.

(** ** Data *)

Record MHLHashEntry := {
  hash_format : string;
  hash_string : string
}.

Record MHLTool := { tool_name : string; tool_version : string }.

Record MHLCreatorInfo := {
  root_media_hash_path : string;
  tool : MHLTool;
  creation_date : string;
  host_name : string;
  process : string
}.

(** What a generation session accumulates.  The command module only ever
    produces [FileObservation]s; [DirectoryObservation] is the record the
    session keeps for a directory hash. *)
Inductive observation :=
| FileObservation (path : string) (size : Z) (mtime : Z) (fmt value : string)
| DirectoryObservation (path fmt value : string).

Definition is_directory_observation (o : observation) : bool :=
  match o with
  | DirectoryObservation _ _ _ => true
  | FileObservation _ _ _ _ _ => false
  end.

Record generation := {
  generation_number : nat;
  creator_info : MHLCreatorInfo;
  media_hashes : list observation
}.

Inductive exception :=
| KeyError (key : string)
| BadParameter (msg : string)
| NoMHLHistoryException (root_path : string)
| VerificationFailedException
| CompletenessCheckFailedException
| NewFilesFoundException.

#[global] Instance exception_eq_dec : EqDecision exception.
Proof. solve_decision. Defined.

Inductive log_record :=
| VerboseSealFolder (root_path : string)
| VerboseCheckFolder (root_path : string)
| VerboseDirHash (folder_path dir_hash : string)
| VerboseVerificationOK (file_path : string)
| ErrorNewFile (file_path : string)
| ErrorHashMismatch (file_path fmt old_hash new_hash : string)
| ErrorMissingFiles (paths : gset string).

(** ** Effects of one invocation *)

Record world := {
  w_log : list log_record;
  w_sessions : nat;
  w_persisted : list generation
}.

Definition initial_world : world :=
  {| w_log := []; w_sessions := 0; w_persisted := [] |}.

Inductive result (A : Type) :=
| Ok (a : A) (w : world)
| Raise (e : exception) (w : world).
Arguments Ok {A} a w.
Arguments Raise {A} e w.

Definition M (A : Type) : Type := world -> result A.

Definition ret {A} (a : A) : M A := fun w => Ok a w.

Definition bind {A B} (m : M A) (k : A -> M B) : M B :=
  fun w => match m w with
           | Ok a w' => k a w'
           | Raise e w' => Raise e w'
           end.

Definition raise {A} (e : exception) : M A := fun w => Raise e w.

Notation "'let*' x ':=' m 'in' k" := (bind m (fun x => k))
  (at level 10, x pattern, m at level 100, k at level 200, only parsing).
Notation "'run' m 'then' k" := (bind m (fun _ => k))
  (at level 10, m at level 100, k at level 200, only parsing).

Definition logger (r : log_record) : M unit :=
  fun w => Ok tt {| w_log := w_log w ++ [r];
                    w_sessions := w_sessions w;
                    w_persisted := w_persisted w |}.

(** A Python [for] loop over a list, threading the loop's variables. *)
Fixpoint for_each {A S} (items : list A) (body : A -> S -> M S) (s : S) : M S :=
  match items with
  | [] => ret s
  | x :: rest => let* s' := body x s in for_each rest body s'
  end.

Definition outcome {A} (r : result A) : option exception :=
  match r with
  | Ok _ _ => None
  | Raise e _ => Some e
  end.

Definition final {A} (r : result A) : world :=
  match r with
  | Ok _ w => w
  | Raise _ w => w
  end.

(** ** Specifications of computations *)

(** What a computation establishes, whichever way it ends. *)
Definition holds {A} (r : result A)
    (Q : A -> world -> Prop) (E : exception -> world -> Prop) : Prop :=
  match r with
  | Ok a w => Q a w
  | Raise e w => E e w
  end.

(** A computation that at most writes to the log. *)
Definition only_logs (w w' : world) : Prop :=
  w_sessions w' = w_sessions w /\ w_persisted w' = w_persisted w.

(** ** Collaborators *)

Class Environment := {
  History : Type;
  HashList : Type;
  (* os, platform, utils *)
  getcwd : string;
  isdir : string -> bool;
  getsize : string -> Z;
  getmtime : string -> Z;
  platform_node : string;
  datetime_now_isostring : string;
  (* traverse *)
  post_order_lexicographic : string -> list (string * list (string * bool));
  (* hasher *)
  create_filehash : string -> string -> string;
  directory_digest : string -> list (string * string) -> string;
  (* history *)
  load_from_path : string -> History;
  hash_lists : History -> list HashList;
  get_root_path : History -> string;
  set_of_file_paths : History -> gset string;
  get_relative_file_path : History -> string -> string;
  find_history_for_path : History -> string -> History * string;
  find_original_hash_entry_for_path : History -> string -> option MHLHashEntry;
  find_existing_hash_formats_for_path : History -> string -> list string;
  (* generator: does a new hash agree with what the history holds? *)
  verify_against_history : History -> string -> string -> string -> bool;
  (* logger: exit codes of the two exceptions only check can raise *)
  new_files_found_exit_code : Z;
  no_mhl_history_exit_code : Z
}.

(** ** The command module *)

Section Commands.

Context {env : Environment}.

(** *** The generation session and the directory hash context *)

Record MHLGenerationCreationSession := {
  root_history : History;
  new_hash_entries : list observation
}.

(** Modelled from the spec: [MHLGenerationCreationSession(history)] of
    the generator module, which starts an empty session over a history. *)
Definition new_session (h : History) : M MHLGenerationCreationSession :=
  fun w => Ok {| root_history := h; new_hash_entries := [] |}
              {| w_log := w_log w;
                 w_sessions := S (w_sessions w);
                 w_persisted := w_persisted w |}.

(** Modelled from the spec: [session.append_file_hash] of the generator
    module.  The observation is kept whether or not it agrees with the
    history; the result says whether it agrees. *)
Definition append_file_hash (session : MHLGenerationCreationSession)
    (file_path : string) (file_size file_modification_date : Z)
    (fmt value : string) : MHLGenerationCreationSession * bool :=
  ({| root_history := root_history session;
      new_hash_entries :=
        new_hash_entries session ++
        [FileObservation file_path file_size file_modification_date fmt value] |},
   verify_against_history (root_history session) file_path fmt value).

(** Modelled from the spec: [session.append_directory_hash] of the
    generator module.  The command module never calls it. *)
Definition append_directory_hash (session : MHLGenerationCreationSession)
    (path fmt value : string) : MHLGenerationCreationSession * bool :=
  ({| root_history := root_history session;
      new_hash_entries :=
        new_hash_entries session ++ [DirectoryObservation path fmt value] |},
   verify_against_history (root_history session) path fmt value).

(** Modelled from the spec: [session.commit] of the generator module,
    which numbers the generation after the ones the history holds and
    persists what the session accumulated. *)
Definition commit (session : MHLGenerationCreationSession)
    (ci : MHLCreatorInfo) : M unit :=
  fun w =>
    Ok tt {| w_log := w_log w;
             w_sessions := w_sessions w;
             w_persisted :=
               w_persisted w ++
               [{| generation_number :=
                     S (length (hash_lists (root_history session)));
                   creator_info := ci;
                   media_hashes := new_hash_entries session |}] |}.

(** Modelled from the spec: [DirectoryHashContext] of the hasher module,
    which is fed (child hash, child name) pairs in order and digests
    them at the end. *)
Record DirectoryHashContext := {
  context_format : string;
  context_fed : list (string * string)
}.

Definition new_context (fmt : string) : DirectoryHashContext :=
  {| context_format := fmt; context_fed := [] |}.

Definition append_hash (c : DirectoryHashContext)
    (hash_string item_name : string) : DirectoryHashContext :=
  {| context_format := context_format c;
     context_fed := context_fed c ++ [(hash_string, item_name)] |}.

Definition final_hash_str (c : DirectoryHashContext) : string :=
  directory_digest (context_format c) (context_fed c).

(** *** Helpers of the module *)

Definition test_for_missing_files (not_found_paths : gset string) : M unit :=
  if bool_decide (0 < size not_found_paths) then
    run logger (ErrorMissingFiles not_found_paths) then
    raise CompletenessCheckFailedException
  else ret tt.

Definition commit_session (session : MHLGenerationCreationSession) : M unit :=
  commit session
    {| root_media_hash_path := get_root_path (root_history session);
       tool := {| tool_name := "seal"; tool_version := "0.0.1" |};
       creation_date := datetime_now_isostring;
       host_name := platform_node;
       process := "in-place" |}.

Definition seal_file_path (existing_history : History) (file_path hash_format : string)
    (session : MHLGenerationCreationSession)
  : string * bool * MHLGenerationCreationSession :=
  let relative_path := get_relative_file_path existing_history file_path in
  let file_size := getsize file_path in
  let file_modification_date := getmtime file_path in
  let existing_hash_formats :=
    find_existing_hash_formats_for_path existing_history relative_path in
  let success := true in
  let '(session, success) :=
    match existing_hash_formats with
    | existing_hash_format :: _ =>
        if negb (bool_decide (hash_format ∈ existing_hash_formats)) then
          let hash_in_existing_format := create_filehash existing_hash_format file_path in
          let '(session', ok) :=
            append_file_hash session file_path file_size file_modification_date
              existing_hash_format hash_in_existing_format in
          (session', success && ok)
        else (session, success)
    | [] => (session, success)
    end in
  let current_format_hash := create_filehash hash_format file_path in
  let '(session, ok) :=
    append_file_hash session file_path file_size file_modification_date
      hash_format current_format_hash in
  (current_format_hash, success && ok, session).

(** Modelled from the spec: [logger.verbose] of the logger module, whose
    output the verbose flag switches on. *)
Definition logger_verbose (verbose : bool) (r : log_record) : M unit :=
  if verbose then logger r else ret tt.

(** *** seal *)

Record seal_vars := {
  not_found_paths : gset string;
  session : MHLGenerationCreationSession;
  num_failed_verifications : nat;
  dir_hash_mappings : gmap string string
}.

(** One turn of the loop over the children of a folder. *)
Definition seal_child (existing_history : History) (hash_format folder_path : string)
    (child : string * bool) (st : seal_vars * option DirectoryHashContext)
  : M (seal_vars * option DirectoryHashContext) :=
  let '(item_name, is_dir) := child in
  let '(v, dir_hash_context) := st in
  let file_path := Posix.join folder_path item_name in
  if is_dir then
    match dir_hash_context with
    | None => ret st
    | Some c =>
        match dir_hash_mappings v !! file_path with
        | None => raise (KeyError file_path)
        | Some hash_string =>
            ret ({| not_found_paths := not_found_paths v;
                    session := session v;
                    num_failed_verifications := num_failed_verifications v;
                    dir_hash_mappings := delete file_path (dir_hash_mappings v) |},
                 Some (append_hash c hash_string item_name))
        end
    end
  else
    let '(hash_string, success, session') :=
      seal_file_path existing_history file_path hash_format (session v) in
    ret ({| not_found_paths := not_found_paths v ∖ {[file_path]};
            session := session';
            num_failed_verifications :=
              if success then num_failed_verifications v
              else S (num_failed_verifications v);
            dir_hash_mappings := dir_hash_mappings v |},
         match dir_hash_context with
         | Some c => Some (append_hash c hash_string item_name)
         | None => None
         end).

(** One turn of the loop over the traversal. *)
Definition seal_folder (existing_history : History) (verbose : bool)
    (hash_format : string) (directory_hashes : bool)
    (entry : string * list (string * bool)) (v : seal_vars) : M seal_vars :=
  let '(folder_path, children) := entry in
  let dir_hash_context :=
    if directory_hashes then Some (new_context hash_format) else None in
  let* (v, dir_hash_context) :=
    for_each children (seal_child existing_history hash_format folder_path)
             (v, dir_hash_context) in
  match dir_hash_context with
  | Some c =>
      let dir_hash := final_hash_str c in
      run logger_verbose verbose (VerboseDirHash folder_path dir_hash) then
      ret {| not_found_paths := not_found_paths v;
             session := session v;
             num_failed_verifications := num_failed_verifications v;
             dir_hash_mappings := <[folder_path := dir_hash]> (dir_hash_mappings v) |}
  | None => ret v
  end.

Definition seal_traversal (existing_history : History) (root_path : string)
    (verbose : bool) (hash_format : string) (directory_hashes : bool)
    (session0 : MHLGenerationCreationSession) : M seal_vars :=
  for_each (post_order_lexicographic root_path)
    (seal_folder existing_history verbose hash_format directory_hashes)
    {| not_found_paths := set_of_file_paths existing_history;
       session := session0;
       num_failed_verifications := 0;
       dir_hash_mappings := ∅ |}.

Definition absolute (path : string) : string :=
  if Posix.isabs path then path else Posix.join getcwd path.

Definition seal (root_path : string) (verbose : bool) (hash_format : string)
    (directory_hashes : bool) : M unit :=
  let root_path := absolute root_path in
  run logger_verbose verbose (VerboseSealFolder root_path) then
  let existing_history := load_from_path root_path in
  let* session0 := new_session existing_history in
  let* v := seal_traversal existing_history root_path verbose hash_format
                           directory_hashes session0 in
  run commit_session (session v) then
  if bool_decide (0 < num_failed_verifications v) then
    raise VerificationFailedException
  else test_for_missing_files (not_found_paths v).

(** *** check *)

Record check_vars := {
  check_not_found_paths : gset string;
  check_num_failed_verifications : nat;
  check_num_new_files : nat
}.

Definition check_child (existing_history : History) (verbose : bool)
    (folder_path : string) (child : string * bool) (v : check_vars) : M check_vars :=
  let '(item_name, is_dir) := child in
  let file_path := Posix.join folder_path item_name in
  if is_dir then ret v
  else
    let relative_path := get_relative_file_path existing_history file_path in
    let '(history, history_relative_path) :=
      find_history_for_path existing_history relative_path in
    match find_original_hash_entry_for_path history history_relative_path with
    | None =>
        run logger (ErrorNewFile file_path) then
        ret {| check_not_found_paths := check_not_found_paths v;
               check_num_failed_verifications := check_num_failed_verifications v;
               check_num_new_files := S (check_num_new_files v) |}
    | Some original_hash_entry =>
        let current_hash :=
          create_filehash (hash_format original_hash_entry) file_path in
        let* failed :=
          if bool_decide (hash_string original_hash_entry = current_hash) then
            run logger_verbose verbose (VerboseVerificationOK file_path) then
            ret (check_num_failed_verifications v)
          else
            run logger (ErrorHashMismatch file_path
                          (hash_format original_hash_entry)
                          (hash_string original_hash_entry) current_hash) then
            ret (S (check_num_failed_verifications v)) in
        ret {| check_not_found_paths := check_not_found_paths v ∖ {[file_path]};
               check_num_failed_verifications := failed;
               check_num_new_files := check_num_new_files v |}
    end.

Definition check_folder (existing_history : History) (verbose : bool)
    (entry : string * list (string * bool)) (v : check_vars) : M check_vars :=
  let '(folder_path, children) := entry in
  for_each children (check_child existing_history verbose folder_path) v.

Definition check_traversal (existing_history : History) (root_path : string)
    (verbose : bool) : M check_vars :=
  for_each (post_order_lexicographic root_path)
    (check_folder existing_history verbose)
    {| check_not_found_paths := set_of_file_paths existing_history;
       check_num_failed_verifications := 0;
       check_num_new_files := 0 |}.

Definition check (root_path : string) (verbose : bool) : M unit :=
  let root_path := absolute root_path in
  run logger_verbose verbose (VerboseCheckFolder root_path) then
  let existing_history := load_from_path root_path in
  if bool_decide (length (hash_lists existing_history) = 0) then
    raise (NoMHLHistoryException root_path)
  else
    let* v := check_traversal existing_history root_path verbose in
    if bool_decide (0 < check_num_failed_verifications v) then
      raise VerificationFailedException
    else
      run test_for_missing_files (check_not_found_paths v) then
      if bool_decide (0 < check_num_new_files v) then
        raise NewFilesFoundException
      else ret tt.

(** *** record *)

Definition record_vars : Type := MHLGenerationCreationSession * nat.

Definition record_file (existing_history : History) (hash_format file_path : string)
    (v : record_vars) : record_vars :=
  let '(session, num_failed_verifications) := v in
  let '(_, success, session') :=
    seal_file_path existing_history file_path hash_format session in
  (session', if success then num_failed_verifications
             else S num_failed_verifications).

Definition record_child (existing_history : History) (hash_format folder_path : string)
    (child : string * bool) (v : record_vars) : M record_vars :=
  let '(item_name, is_dir) := child in
  let file_path := Posix.join folder_path item_name in
  if is_dir then ret v
  else ret (record_file existing_history hash_format file_path v).

Definition record_path (existing_history : History) (hash_format path : string)
    (v : record_vars) : M record_vars :=
  let path := absolute path in
  if isdir path then
    for_each (post_order_lexicographic path)
      (fun entry v =>
         let '(folder_path, children) := entry in
         for_each children (record_child existing_history hash_format folder_path) v)
      v
  else ret (record_file existing_history hash_format path v).

Definition record (root_path : string) (paths : list string) (verbose : bool)
    (hash_format : string) : M unit :=
  let root_path := absolute root_path in
  if bool_decide (length paths = 0) then
    raise (BadParameter "no file paths gives")
  else
    let existing_history := load_from_path root_path in
    let* session0 := new_session existing_history in
    let* (session, num_failed_verifications) :=
      for_each paths (record_path existing_history hash_format) (session0, 0) in
    run commit_session session then
    if bool_decide (0 < num_failed_verifications) then
      raise VerificationFailedException
    else ret tt.

(** *** Exit codes *)

(** Modelled from the spec: the exit codes the logger module gives its
    exceptions (12 for a failed verification, 15 for a failed
    completeness check); click exits with 2 on a usage error and with 1
    on an exception that is not its own. *)
Definition exit_code (o : option exception) : Z :=
  match o with
  | None => 0
  | Some VerificationFailedException => 12
  | Some CompletenessCheckFailedException => 15
  | Some NewFilesFoundException => new_files_found_exit_code
  | Some (NoMHLHistoryException _) => no_mhl_history_exit_code
  | Some (BadParameter _) => 2
  | Some (KeyError _) => 1
  end.

(** *** Vocabulary of the statements *)

Definition is_key_error (e : exception) : Prop := exists key, e = KeyError key.

(** The generation a session is committed as. *)
Definition committed_generation (session : MHLGenerationCreationSession) : generation :=
  {| generation_number := S (length (hash_lists (root_history session)));
     creator_info :=
       {| root_media_hash_path := get_root_path (root_history session);
          tool := {| tool_name := "seal"; tool_version := "0.0.1" |};
          creation_date := datetime_now_isostring;
          host_name := platform_node;
          process := "in-place" |};
     media_hashes := new_hash_entries session |}.

(** The files a traversal visits, in visiting order. *)
Definition child_files (folder_path : string) (children : list (string * bool))
  : list string :=
  omap (fun child : string * bool =>
          if snd child then None else Some (Posix.join folder_path (fst child)))
       children.

Definition files_of (walk : list (string * list (string * bool))) : list string :=
  concat ((fun entry => child_files (fst entry) (snd entry)) <$> walk).

(** The original hash entry check looks a file up by. *)
Definition original_entry (h : History) (file_path : string) : option MHLHashEntry :=
  let '(history, history_relative_path) :=
    find_history_for_path h (get_relative_file_path h file_path) in
  find_original_hash_entry_for_path history history_relative_path.

Definition is_new (h : History) (file_path : string) : bool :=
  match original_entry h file_path with
  | None => true
  | Some _ => false
  end.

(** The mismatch a file is to be reported with: its hash, recomputed in
    the format of its original entry, differs from that entry's value. *)
Definition mismatch_report (h : History) (file_path : string) : option log_record :=
  match original_entry h file_path with
  | Some e =>
      let current_hash := create_filehash (hash_format e) file_path in
      if bool_decide (hash_string e = current_hash) then None
      else Some (ErrorHashMismatch file_path (hash_format e) (hash_string e)
                                   current_hash)
  | None => None
  end.

Definition is_mismatch_record (r : log_record) : bool :=
  match r with
  | ErrorHashMismatch _ _ _ _ => true
  | _ => false
  end.

Definition is_new_file_record (r : log_record) : bool :=
  match r with
  | ErrorNewFile _ => true
  | _ => false
  end.

(** What visiting [files] does to the variables and the world of check. *)
Definition check_effect (h : History) (files : list string)
    (v0 : check_vars) (w0 : world) (v : check_vars) (w : world) : Prop :=
  check_num_failed_verifications v
    = check_num_failed_verifications v0 + length (omap (mismatch_report h) files)
  /\ check_num_new_files v
    = check_num_new_files v0 + length (List.filter (is_new h) files)
  /\ check_not_found_paths v
    = check_not_found_paths v0
      ∖ list_to_set (List.filter (fun p => negb (is_new h p)) files)
  /\ List.filter is_mismatch_record (w_log w)
    = List.filter is_mismatch_record (w_log w0) ++ omap (mismatch_report h) files
  /\ List.filter is_new_file_record (w_log w)
    = List.filter is_new_file_record (w_log w0)
      ++ (ErrorNewFile <$> List.filter (is_new h) files)
  /\ only_logs w0 w.

(** The verdict check reaches from what its traversal counted. *)
Definition check_verdict (failed new : nat) (missing : gset string)
  : option exception :=
  if bool_decide (0 < failed) then Some VerificationFailedException
  else if bool_decide (0 < size missing) then Some CompletenessCheckFailedException
  else if bool_decide (0 < new) then Some NewFilesFoundException
  else None.

(** Whether sealing a file succeeds depends on the history alone. *)
Definition verifies (h : History) (hash_format file_path : string) : bool :=
  snd (fst (seal_file_path h file_path hash_format
              {| root_history := h; new_hash_entries := [] |})).

(** The files a record run seals, in sealing order. *)
Definition record_files (paths : list string) : list string :=
  concat ((fun path =>
             let path := absolute path in
             if isdir path then files_of (post_order_lexicographic path)
             else [path]) <$> paths).

Definition failures (h : History) (hash_format : string) (files : list string) : nat :=
  length (List.filter (fun p => negb (verifies h hash_format p)) files).

Definition record_effect (h : History) (hash_format : string) (files : list string)
    (v0 v : record_vars) : Prop :=
  root_history (fst v) = h /\ snd v = snd v0 + failures h hash_format files.

(** Entries of a session that are all file observations. *)
Definition files_only (entries : list observation) : Prop :=
  Forall (fun o => is_directory_observation o = false) entries.

(** *** Vocabulary of the further statements *)

(** The observations that sealing one file adds to a session over [h]. *)
Definition sealed_observations (h : History) (hash_format file_path : string)
  : list observation :=
  new_hash_entries
    (snd (seal_file_path h file_path hash_format
            {| root_history := h; new_hash_entries := [] |})).

(** What sealing [files] does to the variables of seal. *)
Definition seal_effect (h : History) (hash_format : string) (files : list string)
    (v0 v : seal_vars) : Prop :=
  not_found_paths v = not_found_paths v0 ∖ list_to_set files
  /\ num_failed_verifications v
     = num_failed_verifications v0 + failures h hash_format files
  /\ root_history (session v) = h
  /\ new_hash_entries (session v)
     = new_hash_entries (session v0)
       ++ concat (sealed_observations h hash_format <$> files).

(** The world seal starts its traversal in. *)
Definition seal_start (verbose : bool) (root : string) (w : world) : world :=
  {| w_log := if verbose then w_log w ++ [VerboseSealFolder root] else w_log w;
     w_sessions := S (w_sessions w);
     w_persisted := w_persisted w |}.

(** The verdict seal reaches from what its traversal counted. *)
Definition seal_verdict (failed : nat) (missing : gset string) : option exception :=
  if bool_decide (failed <> 0) then Some VerificationFailedException
  else if bool_decide (missing <> ∅) then Some CompletenessCheckFailedException
  else None.

(** The generation a seal or record run over [h] commits for [files]. *)
Definition generation_of (h : History) (hash_format : string) (files : list string)
  : generation :=
  committed_generation
    {| root_history := h;
       new_hash_entries := concat (sealed_observations h hash_format <$> files) |}.

(** The child directories of a folder, by path. *)
Definition dir_children (folder_path : string) (children : list (string * bool))
  : list string :=
  omap (fun child : string * bool =>
          if snd child then Some (Posix.join folder_path (fst child)) else None)
       children.

(** Every child directory has been yielded as a folder before the folder
    that lists it. *)
Fixpoint children_yielded (seen : list string)
    (walk : list (string * list (string * bool))) : bool :=
  match walk with
  | [] => true
  | (folder_path, children) :: rest =>
      forallb (fun p => bool_decide (p ∈ seen)) (dir_children folder_path children)
      && children_yielded (folder_path :: seen) rest
  end.

(** A post-order traversal: child directories come before their parent,
    and no directory is listed as a child twice. *)
Definition post_order (walk : list (string * list (string * bool))) : Prop :=
  children_yielded [] walk = true
  /\ NoDup (concat ((fun entry => dir_children (fst entry) (snd entry)) <$> walk)).

(** What a child feeds into the hash context of its folder. *)
Definition child_pair (hash_format folder_path : string) (m : gmap string string)
    (child : string * bool) : string * string :=
  let file_path := Posix.join folder_path (fst child) in
  (if snd child then default "" (m !! file_path)
   else create_filehash hash_format file_path,
   fst child).

End Commands.

(** ** A flat, single-history environment for concrete runs

    One root, no nested histories.  The history is the list of the hash
    entries recorded so far, oldest first, by path relative to the root; a
    file's digest is written symbolically, as its format applied to its
    content. *)

Module Flat.

Definition strip_prefix (root path : string) : string :=
  if String.prefix (root +:+ "/") path
  then String.substring (S (String.length root))
                        (String.length path - S (String.length root)) path
  else path.

Definition first_entry (recorded : list (string * MHLHashEntry))
    (path : string) : option MHLHashEntry :=
  snd <$> List.find (fun e => bool_decide (fst e = path)) recorded.

Definition first_entry_in (recorded : list (string * MHLHashEntry))
    (path fmt : string) : option MHLHashEntry :=
  snd <$> List.find (fun e => bool_decide (fst e = path)
                              && bool_decide (hash_format (snd e) = fmt)) recorded.

Definition formats_of (recorded : list (string * MHLHashEntry))
    (path : string) : list string :=
  remove_dups
    (hash_format ∘ snd <$> List.filter (fun e => bool_decide (fst e = path)) recorded).

Definition digest (fmt content : string) : string :=
  fmt +:+ "(" +:+ content +:+ ")".

Definition environment (root : string)
    (walk : list (string * list (string * bool)))
    (content : string -> string)
    (recorded : list (string * MHLHashEntry))
    (generations : nat) : Environment :=
  {| History := list (string * MHLHashEntry);
     HashList := unit;
     getcwd := "/";
     isdir := fun p => bool_decide (p ∈ (fst <$> walk));
     getsize := fun p => Z.of_nat (String.length (content p));
     getmtime := fun _ => 0%Z;
     platform_node := "localhost";
     datetime_now_isostring := "2020-01-16T09:15:00+00:00";
     post_order_lexicographic :=
       fun p => List.filter (fun e => bool_decide (fst e = p)
                                      || String.prefix (p +:+ "/") (fst e)) walk;
     create_filehash := fun fmt p => digest fmt (content p);
     directory_digest :=
       fun fmt fed => digest fmt (String.concat "" ((fun c => fst c +:+ snd c) <$> fed));
     load_from_path := fun _ => recorded;
     hash_lists := fun _ => replicate generations tt;
     get_root_path := fun _ => root;
     set_of_file_paths := fun h => list_to_set (Posix.join root ∘ fst <$> h);
     get_relative_file_path := fun _ p => strip_prefix root p;
     find_history_for_path := fun h p => (h, p);
     find_original_hash_entry_for_path := first_entry;
     find_existing_hash_formats_for_path := formats_of;
     verify_against_history :=
       fun h p fmt value =>
         match first_entry_in h (strip_prefix root p) fmt with
         | Some e => bool_decide (hash_string e = value)
         | None => true
         end;
     new_files_found_exit_code := 13;
     no_mhl_history_exit_code := 11 |}.

End Flat.

(** ** The tree of the sealing scenarios *)

Module Scenario.

Definition xxh64 (value : string) : MHLHashEntry :=
  {| hash_format := "xxh64"; hash_string := Flat.digest "xxh64" value |}.

(** The tree after [A/A2.txt] was altered and [B/B1.txt] renamed to
    [B/B2.txt]. *)
Definition walk_renamed : list (string * list (string * bool)) :=
  [ ("/root/A/AA", [("AA1.txt", false)]);
    ("/root/A", [("A1.txt", false); ("A2.txt", false); ("AA", true)]);
    ("/root/B", [("B2.txt", false)]);
    ("/root/emptyFolderA", []);
    ("/root/emptyFolderB", []);
    ("/root/emptyFolderC/emptyFolderCA", []);
    ("/root/emptyFolderC/emptyFolderCB", []);
    ("/root/emptyFolderC", [("emptyFolderCA", true); ("emptyFolderCB", true)]);
    ("/root", [("A", true); ("B", true); ("Stuff.txt", false);
               ("emptyFolderA", true); ("emptyFolderB", true);
               ("emptyFolderC", true)]) ].

Definition content (path : string) : string :=
  if bool_decide (path = "/root/Stuff.txt") then "stuff"
  else if bool_decide (path = "/root/New.txt") then "new"
  else if bool_decide (path = "/root/A/A1.txt") then "A1"
  else if bool_decide (path = "/root/A/A2.txt") then "A2!!"
  else if bool_decide (path = "/root/A/AA/AA1.txt") then "AA1"
  else if bool_decide (path = "/root/B/B2.txt") then "B1"
  else "".

(** What three earlier seals recorded: the two first files, then the
    additions, then the altered [A/A2.txt]. *)
Definition recorded : list (string * MHLHashEntry) :=
  [ ("Stuff.txt", xxh64 "stuff"); ("A/A1.txt", xxh64 "A1");
    ("A/A2.txt", xxh64 "A2"); ("A/AA/AA1.txt", xxh64 "AA1");
    ("B/B1.txt", xxh64 "B1");
    ("A/A2.txt", xxh64 "A2!!") ].

Definition renamed : Environment :=
  Flat.environment "/root" walk_renamed content recorded 3.

(** The first tree, never sealed before. *)
Definition walk_first : list (string * list (string * bool)) :=
  [ ("/root/A", [("A1.txt", false)]);
    ("/root", [("A", true); ("Stuff.txt", false)]) ].

Definition first_tree : Environment :=
  Flat.environment "/root" walk_first content [] 0.

(** A tree whose child directory [Nested] is listed by its parent but not
    yielded as a folder of its own, the way the root of a nested history
    is left to that history. *)
Definition walk_nested : list (string * list (string * bool)) :=
  [ ("/root", [("Nested", true); ("Stuff.txt", false)]) ].

Definition nested : Environment :=
  Flat.environment "/root" walk_nested content [] 0.

(** A sealed tree that gained one file, [New.txt]. *)
Definition walk_added : list (string * list (string * bool)) :=
  [ ("/root", [("New.txt", false); ("Stuff.txt", false)]) ].

Definition added : Environment :=
  Flat.environment "/root" walk_added content
    [("Stuff.txt", xxh64 "stuff")] 1.

(** A tree sealed with md5 only. *)
Definition md5_only : Environment :=
  Flat.environment "/root" [("/root", [("Stuff.txt", false)])] content
    [("Stuff.txt",
      {| hash_format := "md5"; hash_string := Flat.digest "md5" "stuff" |})] 1.

(** A tree whose history also expects the directory [emptyFolder], which
    is still there. *)
Definition walk_kept_folder : list (string * list (string * bool)) :=
  [ ("/root/emptyFolder", []);
    ("/root", [("Stuff.txt", false); ("emptyFolder", true)]) ].

Definition kept_folder : Environment :=
  Flat.environment "/root" walk_kept_folder content
    [("Stuff.txt", xxh64 "stuff"); ("emptyFolder", xxh64 "")] 1.

(** A sealed tree that has not changed since. *)
Definition unchanged : Environment :=
  Flat.environment "/root" [("/root", [("Stuff.txt", false)])] content
    [("Stuff.txt", xxh64 "stuff")] 1.

End Scenario.

(** ** Reasoning about the monad *)

Section Monad.

Lemma holds_weaken {A} (r : result A) (Q Q' : A -> world -> Prop)
    (E E' : exception -> world -> Prop) :
  holds r Q E -> (forall a w, Q a w -> Q' a w) -> (forall e w, E e w -> E' e w) ->
  holds r Q' E'.
Proof. destruct r; simpl; auto. Qed.

Lemma holds_bind {A B} (m : M A) (k : A -> M B) (w : world)
    (Q : A -> world -> Prop) (R : B -> world -> Prop)
    (E : exception -> world -> Prop) :
  holds (m w) Q E ->
  (forall a w', Q a w' -> holds (k a w') R E) ->
  holds (bind m k w) R E.
Proof.
  unfold bind. destruct (m w) as [a w'|e w']; simpl; auto.
Qed.

Lemma holds_for_each {A S} (I : S -> world -> Prop)
    (E : exception -> world -> Prop) (items : list A) (body : A -> S -> M S) :
  (forall x s w, x ∈ items -> I s w -> holds (body x s w) I E) ->
  forall s w, I s w -> holds (for_each items body s w) I E.
Proof.
  induction items as [|x rest IH]; intros Hbody s w Hs; simpl.
  - exact Hs.
  - eapply holds_bind.
    + apply Hbody; [left | exact Hs].
    + intros s' w' Hs'. apply IH; [|exact Hs'].
      intros y s0 w0 Hy. apply Hbody. by right.
Qed.

Lemma for_each_cons {A S} (x : A) (rest : list A) (body : A -> S -> M S)
    (s : S) (w : world) :
  for_each (x :: rest) body s w = bind (body x s) (for_each rest body) w.
Proof. reflexivity. Qed.

Lemma for_each_app {A S} (l1 l2 : list A) (body : A -> S -> M S) (s : S) (w : world) :
  for_each (l1 ++ l2) body s w = bind (for_each l1 body s) (for_each l2 body) w.
Proof.
  revert s w. induction l1 as [|x l1 IH]; intros s w; simpl.
  - reflexivity.
  - unfold bind in *. destruct (body x s w) as [s' w'|e w']; [|reflexivity].
    apply IH.
Qed.

Lemma only_logs_refl w : only_logs w w.
Proof. by split. Qed.

Lemma only_logs_trans w1 w2 w3 : only_logs w1 w2 -> only_logs w2 w3 -> only_logs w1 w3.
Proof. intros [? ?] [? ?]; split; congruence. Qed.

Lemma logger_only_logs r w : holds (logger r w) (fun _ w' => only_logs w w') (fun _ _ => False).
Proof. by split. Qed.

Lemma logger_verbose_only_logs verbose r w :
  holds (logger_verbose verbose r w) (fun _ w' => only_logs w w') (fun _ _ => False).
Proof. destruct verbose; [apply logger_only_logs | apply only_logs_refl]. Qed.

End Monad.

(** ** Facts about the commands *)

Section Facts.

Context {env : Environment}.

Lemma holds_final {A} (r : result A) (P : world -> Prop) :
  holds r (fun _ w => P w) (fun _ w => P w) -> P (final r).
Proof. by destruct r. Qed.

Ltac run_monad :=
  unfold bind, ret, raise, logger_verbose, logger, only_logs in *; simpl in *.

(** *** check only reads *)

Lemma check_child_only_logs h verbose folder_path child v w :
  holds (check_child h verbose folder_path child v w)
        (fun _ w' => only_logs w w') (fun _ _ => False).
Proof.
  unfold check_child. destruct child as [item_name is_dir].
  destruct is_dir; [apply only_logs_refl|].
  destruct (find_history_for_path _ _) as [history rel].
  destruct (find_original_hash_entry_for_path _ _) as [entry|]; run_monad.
  - case_bool_decide; destruct verbose; simpl; done.
  - done.
Qed.

Lemma check_traversal_only_logs h root_path verbose w :
  holds (check_traversal h root_path verbose w)
        (fun _ w' => only_logs w w') (fun _ _ => False).
Proof.
  unfold check_traversal.
  apply (holds_for_each (fun _ w' => only_logs w w')); [|apply only_logs_refl].
  intros [folder_path children] v w1 _ Hw1. unfold check_folder.
  apply (holds_for_each (fun _ w' => only_logs w w')); [|exact Hw1].
  intros child v' w2 _ Hw2.
  eapply holds_weaken; [apply check_child_only_logs| |done].
  intros u w3 Hw3. by eapply only_logs_trans.
Qed.

Lemma test_for_missing_files_only_logs paths w :
  holds (test_for_missing_files paths w)
        (fun _ w' => w' = w /\ size paths = 0)
        (fun e w' => e = CompletenessCheckFailedException /\ only_logs w w'
                     /\ 0 < size paths
                     /\ w_log w' = w_log w ++ [ErrorMissingFiles paths]).
Proof.
  unfold test_for_missing_files. case_bool_decide; run_monad.
  - done.
  - split; [done|lia].
Qed.

(** C9. A check run leaves the history as it found it: it opens no
    generation session and persists nothing, however the run ends. *)
Theorem check_never_writes (root_path : string) (verbose : bool) (w : world) :
  w_sessions (final (check root_path verbose w)) = w_sessions w /\
  w_persisted (final (check root_path verbose w)) = w_persisted w.
Proof.
  apply (holds_final _ (only_logs w)). unfold check.
  apply (holds_bind _ _ _ (fun _ w' => only_logs w w')).
  { eapply holds_weaken; [apply logger_verbose_only_logs|auto|done]. }
  intros u w1 Hw1. case_bool_decide; [exact Hw1|].
  apply (holds_bind _ _ _ (fun _ w' => only_logs w w')).
  { eapply holds_weaken; [apply check_traversal_only_logs| |done].
    intros v w2 Hw2. exact (only_logs_trans _ _ _ Hw1 Hw2). }
  intros v w2 Hw2. case_bool_decide; [exact Hw2|].
  apply (holds_bind _ _ _ (fun _ w' => only_logs w w')).
  { eapply holds_weaken; [apply test_for_missing_files_only_logs| |].
    - intros u' w3 [Heq _]. rewrite Heq. exact Hw2.
    - intros e w3 (_ & Hw3 & _). exact (only_logs_trans _ _ _ Hw2 Hw3). }
  intros u' w3 Hw3. case_bool_decide; exact Hw3.
Qed.

(** *** seal: what the traversal can and cannot do *)

Lemma seal_child_world h hash_format folder_path child st w :
  holds (seal_child h hash_format folder_path child st w)
        (fun _ w' => w' = w) (fun e w' => is_key_error e /\ w' = w).
Proof.
  unfold seal_child. destruct child as [item_name is_dir], st as [v ctx].
  destruct is_dir.
  - destruct ctx as [c|]; [|done].
    destruct (dir_hash_mappings v !! _); [done|].
    split; [by eexists|done].
  - by destruct (seal_file_path _ _ _ _) as [[hash_string success] session'].
Qed.

Lemma seal_folder_world h verbose hash_format directory_hashes entry v w :
  holds (seal_folder h verbose hash_format directory_hashes entry v w)
        (fun _ w' => only_logs w w')
        (fun e w' => is_key_error e /\ only_logs w w').
Proof.
  unfold seal_folder. destruct entry as [folder_path children].
  apply (holds_bind _ _ _ (fun _ w' => w' = w)).
  - apply (holds_for_each (fun _ w' => w' = w)); [|done].
    intros child st w1 _ ->.
    eapply holds_weaken; [apply seal_child_world|done|].
    intros e w2 [He ->]. split; [done|apply only_logs_refl].
  - intros [v' ctx] w1 ->. destruct ctx as [c|]; [|apply only_logs_refl].
    apply (holds_bind _ _ _ (fun _ w' => only_logs w w')).
    + eapply holds_weaken; [apply logger_verbose_only_logs|done|done].
    + by intros u w1 Hw1.
Qed.

Lemma seal_traversal_world h root_path verbose hash_format directory_hashes s0 w :
  holds (seal_traversal h root_path verbose hash_format directory_hashes s0 w)
        (fun _ w' => only_logs w w')
        (fun e w' => is_key_error e /\ only_logs w w').
Proof.
  unfold seal_traversal.
  apply (holds_for_each (fun _ w' => only_logs w w')); [|apply only_logs_refl].
  intros entry v w1 _ Hw1.
  eapply holds_weaken; [apply seal_folder_world| |].
  - intros v' w2 Hw2. by eapply only_logs_trans.
  - intros e w2 [He Hw2]. split; [done|by eapply only_logs_trans].
Qed.

(** How a seal run ends, by what its traversal did. *)
Lemma seal_run root_path verbose hash_format directory_hashes w :
  let r := seal root_path verbose hash_format directory_hashes w in
  (exists key, outcome r = Some (KeyError key)
               /\ w_persisted (final r) = w_persisted w) \/
  (exists v,
      (exists w1 w2,
          seal_traversal (load_from_path (absolute root_path)) (absolute root_path)
            verbose hash_format directory_hashes
            {| root_history := load_from_path (absolute root_path);
               new_hash_entries := [] |} w1 = Ok v w2)
      /\ w_persisted (final r) = w_persisted w ++ [committed_generation (session v)]
      /\ (0 < num_failed_verifications v ->
          outcome r = Some VerificationFailedException)
      /\ (num_failed_verifications v = 0 -> 0 < size (not_found_paths v) ->
          outcome r = Some CompletenessCheckFailedException
          /\ last (w_log (final r)) = Some (ErrorMissingFiles (not_found_paths v)))
      /\ (num_failed_verifications v = 0 -> size (not_found_paths v) = 0 ->
          outcome r = None)).
Proof.
  intros r. subst r.
  remember (seal root_path verbose hash_format directory_hashes w) as r eqn:Hr.
  unfold seal in Hr.
  set (root := absolute root_path) in Hr. set (h := load_from_path root) in Hr.
  unfold bind at 1 in Hr.
  pose proof (logger_verbose_only_logs verbose (VerboseSealFolder root) w) as H1.
  destruct (logger_verbose verbose _ w) as [u w1|]; [simpl in H1|done].
  unfold bind at 1 in Hr. unfold new_session at 1 in Hr.
  unfold bind at 1 in Hr.
  match type of Hr with context [seal_traversal ?a1 ?a2 ?a3 ?a4 ?a5 ?a6 ?a7] =>
    pose proof (seal_traversal_world a1 a2 a3 a4 a5 a6 a7) as H2;
    destruct (seal_traversal a1 a2 a3 a4 a5 a6 a7) as [v w2|e w2] eqn:Ht end;
    simpl in H2.
  - right. exists v. split; [by eexists _, _|]. unfold bind at 1 in Hr.
    unfold commit_session, commit in Hr.
    destruct H1 as [_ H1], H2 as [_ H2]. simpl in H2.
    fold (committed_generation (session v)) in Hr.
    case_bool_decide as Hn.
    + subst r. simpl. repeat split; try lia. by rewrite H2, H1.
    + pose proof (test_for_missing_files_only_logs (not_found_paths v)
        {| w_log := w_log w2; w_sessions := w_sessions w2;
           w_persisted := w_persisted w2 ++ [committed_generation (session v)] |})
        as H3.
      destruct (test_for_missing_files _ _) as [u' w3|e w3]; subst r; simpl in *.
      * destruct H3 as [-> Hsz]. simpl. repeat split; try lia.
        by rewrite H2, H1.
      * destruct H3 as (-> & [_ Hp] & Hsz & Hlog). simpl in Hp.
        repeat split; try lia.
        -- by rewrite Hp, H2, H1.
        -- rewrite Hlog. apply last_snoc.
  - left. destruct H2 as [[key ->] [_ H2]]. exists key. subst r. simpl in *.
    destruct H1 as [_ H1]. split; [done|]. by rewrite H2, H1.
Qed.


(** *** check: what a run counts and reports *)

Lemma check_effect_nil h v w : check_effect h [] v w v w.
Proof.
  unfold check_effect; simpl. rewrite !app_nil_r.
  repeat split; try lia. set_solver.
Qed.

Lemma check_effect_app h f1 f2 v0 w0 v1 w1 v2 w2 :
  check_effect h f1 v0 w0 v1 w1 -> check_effect h f2 v1 w1 v2 w2 ->
  check_effect h (f1 ++ f2) v0 w0 v2 w2.
Proof.
  intros (A1 & B1 & C1 & D1 & E1 & F1) (A2 & B2 & C2 & D2 & E2 & F2).
  unfold check_effect.
  rewrite omap_app, !List.filter_app, fmap_app, !length_app, list_to_set_app_L.
  repeat split.
  - lia.
  - lia.
  - rewrite C2, C1. set_solver.
  - rewrite D2, D1. by rewrite <- app_assoc.
  - rewrite E2, E1. by rewrite <- app_assoc.
  - by eapply only_logs_trans.
  - destruct F1, F2. congruence.
Qed.

Lemma check_child_effect h verbose folder_path child v0 w0 :
  exists v w, check_child h verbose folder_path child v0 w0 = Ok v w
              /\ check_effect h (child_files folder_path [child]) v0 w0 v w.
Proof.
  unfold check_child, child_files. destruct child as [item_name is_dir]; simpl.
  destruct is_dir; simpl.
  { eexists _, _. split; [reflexivity|apply check_effect_nil]. }
  unfold check_effect, mismatch_report, is_new, original_entry; simpl.
  destruct (find_history_for_path _ _) as [history rel].
  destruct (find_original_hash_entry_for_path _ _) as [entry|]; simpl.
  - case_bool_decide; destruct verbose; run_monad;
      eexists _, _; (split; [reflexivity|]); simpl;
      rewrite ?List.filter_app, ?app_nil_r; simpl; rewrite ?app_nil_r;
      repeat split; try lia; set_solver.
  - run_monad. eexists _, _. split; [reflexivity|]. simpl.
    rewrite ?List.filter_app, ?app_nil_r; simpl.
    repeat split; try lia; set_solver.
Qed.

Lemma check_folder_effect h verbose folder_path children v0 w0 :
  exists v w, check_folder h verbose (folder_path, children) v0 w0 = Ok v w
              /\ check_effect h (child_files folder_path children) v0 w0 v w.
Proof.
  unfold check_folder. revert v0 w0.
  induction children as [|child rest IH]; intros v0 w0.
  - eexists _, _. split; [reflexivity|apply check_effect_nil].
  - destruct (check_child_effect h verbose folder_path child v0 w0)
      as (v1 & w1 & H1 & E1).
    destruct (IH v1 w1) as (v2 & w2 & H2 & E2).
    exists v2, w2. split.
    + rewrite for_each_cons. unfold bind. by rewrite H1.
    + change (child :: rest) with ([child] ++ rest).
      unfold child_files in *. rewrite omap_app. by eapply check_effect_app.
Qed.

Lemma check_walk_effect h verbose walk v0 w0 :
  exists v w, for_each walk (check_folder h verbose) v0 w0 = Ok v w
              /\ check_effect h (files_of walk) v0 w0 v w.
Proof.
  revert v0 w0. induction walk as [|[folder_path children] rest IH]; intros v0 w0.
  - eexists _, _. split; [reflexivity|apply check_effect_nil].
  - destruct (check_folder_effect h verbose folder_path children v0 w0)
      as (v1 & w1 & H1 & E1).
    destruct (IH v1 w1) as (v2 & w2 & H2 & E2).
    exists v2, w2. split.
    + rewrite for_each_cons. unfold bind. by rewrite H1.
    + unfold files_of. simpl. by eapply check_effect_app.
Qed.

Lemma check_run root_path verbose w :
  let root := absolute root_path in
  let h := load_from_path root in
  let files := files_of (post_order_lexicographic root) in
  let r := check root_path verbose w in
  length (hash_lists h) <> 0 ->
  exists v w2,
    check_effect h files
      {| check_not_found_paths := set_of_file_paths h;
         check_num_failed_verifications := 0;
         check_num_new_files := 0 |}
      (final (logger_verbose verbose (VerboseCheckFolder root) w)) v w2
    /\ outcome r = check_verdict (check_num_failed_verifications v)
                                 (check_num_new_files v) (check_not_found_paths v)
    /\ (outcome r = Some CompletenessCheckFailedException ->
        w_log (final r) = w_log w2 ++ [ErrorMissingFiles (check_not_found_paths v)])
    /\ (outcome r <> Some CompletenessCheckFailedException -> final r = w2).
Proof.
  intros root h files r Hh. subst r.
  remember (check root_path verbose w) as r eqn:Hr.
  unfold check in Hr. fold root in Hr. fold h in Hr.
  unfold bind at 1 in Hr.
  pose proof (logger_verbose_only_logs verbose (VerboseCheckFolder root) w) as H1.
  destruct (logger_verbose verbose _ w) as [u w1|]; [simpl in H1|done].
  rewrite bool_decide_false in Hr by done.
  unfold bind at 1 in Hr. unfold check_traversal in Hr.
  match type of Hr with context [for_each ?walk ?body ?v0 w1] =>
    destruct (check_walk_effect h verbose walk v0 w1) as (v & w2 & Hv & He) end.
  rewrite Hv in Hr. exists v, w2. split; [exact He|].
  unfold check_verdict. case_bool_decide.
  { subst r. simpl. repeat split; done. }
  unfold bind at 1 in Hr.
  pose proof (test_for_missing_files_only_logs (check_not_found_paths v) w2) as H3.
  destruct (test_for_missing_files _ w2) as [u' w3|e w3]; simpl in H3.
  - destruct H3 as [-> Hsz]. rewrite bool_decide_false by lia.
    case_bool_decide; subst r; simpl; repeat split; done.
  - destruct H3 as (-> & _ & Hsz & Hlog). rewrite bool_decide_true by lia.
    subst r; simpl; repeat split; done.
Qed.

(** C7. In a check run over an existing history, the mismatches reported
    are exactly those of the visited files that have an original hash
    entry and whose hash, recomputed in that entry's format, differs from
    the entry's value; the run counts one failed verification for each. *)
Theorem check_verifies_in_original_format (root_path : string) (verbose : bool)
    (w : world) :
  let root := absolute root_path in
  let h := load_from_path root in
  let files := files_of (post_order_lexicographic root) in
  let r := check root_path verbose w in
  length (hash_lists h) <> 0 ->
  List.filter is_mismatch_record (w_log (final r))
    = List.filter is_mismatch_record (w_log w) ++ omap (mismatch_report h) files
  /\ (outcome r = Some VerificationFailedException
      <-> omap (mismatch_report h) files <> []).
Proof.
  intros root h files r Hh.
  destruct (check_run root_path verbose w Hh)
    as (v & w2 & (A & B & C & D & E & F) & Ho & Hc & Hn).
  fold root h files r in A, B, C, D, E, F, Ho, Hc, Hn.
  simpl in A.
  assert (Hw1 : List.filter is_mismatch_record
                  (w_log (final (logger_verbose verbose (VerboseCheckFolder root) w)))
                = List.filter is_mismatch_record (w_log w)).
  { destruct verbose; simpl; [|done]. by rewrite List.filter_app, app_nil_r. }
  rewrite Hw1 in D. split.
  - destruct (decide (outcome r = Some CompletenessCheckFailedException)) as [Hy|Hy].
    + rewrite (Hc Hy), List.filter_app, app_nil_r. exact D.
    + rewrite (Hn Hy). exact D.
  - rewrite Ho. unfold check_verdict. rewrite A.
    destruct (omap (mismatch_report h) files) as [|x l]; simpl.
    + split; [|done]. repeat case_bool_decide; done.
    + try rewrite bool_decide_true by lia. done.
Qed.

(** C6, as the code has it. A check run over an existing history that
    finds a file without an original hash entry reports that file and
    never succeeds; it ends with the new-files-found condition only when
    no verification failed and no expected path is missing, a failed
    verification coming first and a missing path second. *)
Theorem check_new_files_outcome (root_path : string) (verbose : bool)
    (w : world) (p : string) :
  let root := absolute root_path in
  let h := load_from_path root in
  let files := files_of (post_order_lexicographic root) in
  let r := check root_path verbose w in
  length (hash_lists h) <> 0 ->
  p ∈ files ->
  is_new h p = true ->
  ErrorNewFile p ∈ w_log (final r)
  /\ outcome r =
       Some (if bool_decide (omap (mismatch_report h) files <> [])
             then VerificationFailedException
             else if bool_decide
                       (set_of_file_paths h
                          ∖ list_to_set (List.filter (fun p => negb (is_new h p)) files)
                        <> ∅)
                  then CompletenessCheckFailedException
                  else NewFilesFoundException).
Proof.
  intros root h files r Hh Hp Hnew.
  destruct (check_run root_path verbose w Hh)
    as (v & w2 & (A & B & C & D & E & F) & Ho & Hc & Hn).
  fold root h files r in A, B, C, D, E, F, Ho, Hc, Hn.
  simpl in A, B, C.
  assert (Hin : p ∈ List.filter (is_new h) files).
  { apply list_elem_of_In, List.filter_In. split; [by apply list_elem_of_In|done]. }
  split.
  - assert (Hl : ErrorNewFile p ∈ List.filter is_new_file_record (w_log w2)).
    { rewrite E. apply elem_of_app. right. by apply list_elem_of_fmap_2. }
    apply list_elem_of_In, List.filter_In in Hl as [Hl _].
    apply list_elem_of_In in Hl.
    destruct (decide (outcome r = Some CompletenessCheckFailedException)) as [Hy|Hy].
    + rewrite (Hc Hy). apply elem_of_app. by left.
    + by rewrite (Hn Hy).
  - rewrite Ho. unfold check_verdict. rewrite A, B, C.
    assert (Hlen : 0 < length (List.filter (is_new h) files)).
    { destruct (List.filter (is_new h) files); [inversion Hin|simpl; lia]. }
    set (missing := set_of_file_paths h
                      ∖ list_to_set (List.filter (fun p => negb (is_new h p)) files)).
    set (reports := omap (mismatch_report h) files).
    assert (Hr : 0 < length reports <-> reports <> []).
    { destruct reports; simpl; split; (done || lia). }
    assert (Hm : size missing = 0 <-> missing = ∅).
    { split; [intros Hq; by apply leibniz_equiv, size_empty_iff
             |intros ->; apply size_empty]. }
    assert (Hm' : 0 < size missing <-> missing <> ∅).
    { split; [intros Hs Hz; apply Hm in Hz; lia|].
      intros Hz. destruct (size missing) eqn:Hq; [|lia].
      exfalso. apply Hz, Hm. reflexivity. }
    clear Hm. repeat case_bool_decide; try done; tauto || lia.
Qed.

(** *** Paths that stay expected *)

Lemma file_child_in_files walk folder_path children item_name :
  (folder_path, children) ∈ walk -> (item_name, false) ∈ children ->
  Posix.join folder_path item_name ∈ files_of walk.
Proof.
  intros Hw Hc. unfold files_of. apply list_elem_of_In, in_concat.
  exists (child_files folder_path children). split; apply list_elem_of_In.
  - apply list_elem_of_fmap. by exists (folder_path, children).
  - unfold child_files. apply list_elem_of_omap.
    exists (item_name, false). by split.
Qed.

Lemma seal_traversal_keeps h root_path verbose hash_format directory_hashes s0 w p :
  p ∈ set_of_file_paths h ->
  p ∉ files_of (post_order_lexicographic root_path) ->
  holds (seal_traversal h root_path verbose hash_format directory_hashes s0 w)
        (fun v _ => p ∈ not_found_paths v) (fun _ _ => True).
Proof.
  intros Hp Hf. unfold seal_traversal.
  apply (holds_for_each (fun v _ => p ∈ not_found_paths v)); [|exact Hp].
  intros [folder_path children] v w1 Hentry Hv. unfold seal_folder.
  apply (holds_bind _ _ _ (fun st _ => p ∈ not_found_paths (fst st))).
  - apply (holds_for_each (fun st _ => p ∈ not_found_paths (fst st))); [|exact Hv].
    intros [item_name is_dir] [v' ctx] w2 Hchild Hv'. unfold seal_child.
    destruct is_dir.
    + destruct ctx as [c|]; [|exact Hv'].
      destruct (dir_hash_mappings v' !! _); [exact Hv'|exact I].
    + destruct (seal_file_path _ _ _ _) as [[hash_string success] session'].
      simpl in *. apply elem_of_difference. split; [exact Hv'|].
      intros Heq%elem_of_singleton. apply Hf. rewrite Heq.
      by eapply file_child_in_files.
  - intros [v' ctx] w2 Hv'. destruct ctx as [c|]; [|exact Hv'].
    destruct verbose; exact Hv'.
Qed.

Lemma check_no_history root_path verbose w :
  length (hash_lists (load_from_path (absolute root_path))) = 0 ->
  outcome (check root_path verbose w)
  = Some (NoMHLHistoryException (absolute root_path)).
Proof.
  intros Hh. unfold check, bind.
  destruct (logger_verbose verbose _ w) eqn:Hl; [|by destruct verbose].
  by rewrite bool_decide_true.
Qed.

(** C10. A path of the expected set that is not the path of a visited
    file (every directory path is such a path) is never discarded, by
    seal or by check: it is still in the not-found set when the
    traversal ends, so neither run can succeed, and a run that ends in a
    completeness failure lists it among the missing. *)
Theorem directory_paths_never_discarded (root_path : string) (verbose : bool)
    (hash_format : string) (directory_hashes : bool) (w : world) (p : string) :
  let root := absolute root_path in
  let h := load_from_path root in
  let rs := seal root_path verbose hash_format directory_hashes w in
  let rc := check root_path verbose w in
  p ∈ set_of_file_paths h ->
  p ∉ files_of (post_order_lexicographic root) ->
  (forall s0 w0 v w1,
      seal_traversal h root verbose hash_format directory_hashes s0 w0 = Ok v w1 ->
      p ∈ not_found_paths v)
  /\ (forall w0 v w1,
        check_traversal h root verbose w0 = Ok v w1 -> p ∈ check_not_found_paths v)
  /\ outcome rs <> None
  /\ outcome rc <> None
  /\ (outcome rs = Some CompletenessCheckFailedException ->
      exists paths, p ∈ paths /\ last (w_log (final rs)) = Some (ErrorMissingFiles paths))
  /\ (outcome rc = Some CompletenessCheckFailedException ->
      exists paths, p ∈ paths /\ last (w_log (final rc)) = Some (ErrorMissingFiles paths)).
Proof.
  intros root h rs rc Hp Hf.
  assert (Hseal : forall s0 w0 v w1,
    seal_traversal h root verbose hash_format directory_hashes s0 w0 = Ok v w1 ->
    p ∈ not_found_paths v).
  { intros s0 w0 v w1 Ht.
    pose proof (seal_traversal_keeps h root verbose hash_format directory_hashes
                  s0 w0 p Hp Hf) as Hk.
    by rewrite Ht in Hk. }
  assert (Hcheck : forall w0 v w1,
    check_traversal h root verbose w0 = Ok v w1 -> p ∈ check_not_found_paths v).
  { intros w0 v w1 Ht. unfold check_traversal in Ht.
    match type of Ht with for_each ?walk ?body ?v0 w0 = _ =>
      destruct (check_walk_effect h verbose walk v0 w0)
        as (v' & w' & Hv & (_ & _ & C & _)) end.
    rewrite Hv in Ht. injection Ht as -> ->. rewrite C. simpl.
    apply elem_of_difference. split; [exact Hp|].
    intros Hin%elem_of_list_to_set. apply Hf.
    apply list_elem_of_In, List.filter_In in Hin as [Hin _].
    by apply list_elem_of_In. }
  assert (Hpos : forall X : gset string, p ∈ X -> 0 < size X).
  { intros X HX. destruct (size X) eqn:Hs; [|lia].
    apply size_empty_iff in Hs. set_solver. }
  split; [exact Hseal|]. split; [exact Hcheck|].
  assert (Hrs : outcome rs <> None /\
    (outcome rs = Some CompletenessCheckFailedException ->
     exists paths, p ∈ paths /\ last (w_log (final rs)) = Some (ErrorMissingFiles paths))).
  { destruct (seal_run root_path verbose hash_format directory_hashes w)
      as [(key & Hk & _)|(v & (w1 & w2 & Ht) & _ & Hvf & Hcf & _)];
      fold rs in Hk || fold rs in Hvf, Hcf.
    - rewrite Hk. split; [done|]. intros; congruence.
    - pose proof (Hseal _ _ _ _ Ht) as Hin. pose proof (Hpos _ Hin) as Hs.
      destruct (num_failed_verifications v) as [|n] eqn:Hn.
      + destruct (Hcf eq_refl Hs) as [Ho Hl]. rewrite Ho. split; [done|].
        intros _. by exists (not_found_paths v).
      + rewrite Hvf by lia. split; [done|]. intros; congruence. }
  assert (Hrc : outcome rc <> None /\
    (outcome rc = Some CompletenessCheckFailedException ->
     exists paths, p ∈ paths /\ last (w_log (final rc)) = Some (ErrorMissingFiles paths))).
  { destruct (decide (length (hash_lists h) = 0)) as [Hz|Hz].
    - pose proof (check_no_history root_path verbose w Hz) as Ho. fold rc in Ho.
      rewrite Ho. split; [done|]. intros; congruence.
    - destruct (check_run root_path verbose w Hz)
        as (v & w2 & (_ & _ & C & _) & Ho & Hc & _).
      fold root h rc in C, Ho, Hc. simpl in C.
      assert (Hin : p ∈ check_not_found_paths v).
      { rewrite C. apply elem_of_difference. split; [exact Hp|].
        intros Hin%elem_of_list_to_set. apply Hf.
        apply list_elem_of_In, List.filter_In in Hin as [Hin _].
        by apply list_elem_of_In. }
      pose proof (Hpos _ Hin) as Hs. split.
      + rewrite Ho. unfold check_verdict.
        case_bool_decide; [done|]. by rewrite bool_decide_true.
      + intros Hy. exists (check_not_found_paths v). split; [exact Hin|].
        rewrite (Hc Hy). apply last_snoc. }
  tauto.
Qed.

(** *** Sealing one file *)

(** C5. When a file already has hashes in the history but none in the
    requested format, sealing it appends exactly two observations, the
    first in the first of the existing formats with the file's hash in
    that format, the second in the requested format; and the call
    succeeds exactly when both appends do. *)
Theorem seal_file_path_cross_format (h : History) (file_path hash_format : string)
    (session : MHLGenerationCreationSession) (first : string) (rest : list string) :
  find_existing_hash_formats_for_path h (get_relative_file_path h file_path)
    = first :: rest ->
  hash_format ∉ first :: rest ->
  let r := seal_file_path h file_path hash_format session in
  let a1 := append_file_hash session file_path (getsize file_path)
              (getmtime file_path) first (create_filehash first file_path) in
  let a2 := append_file_hash (fst a1) file_path (getsize file_path)
              (getmtime file_path) hash_format
              (create_filehash hash_format file_path) in
  new_hash_entries (snd r)
    = new_hash_entries session
      ++ [FileObservation file_path (getsize file_path) (getmtime file_path)
            first (create_filehash first file_path);
          FileObservation file_path (getsize file_path) (getmtime file_path)
            hash_format (create_filehash hash_format file_path)]
  /\ snd r = fst a2
  /\ (snd (fst r) = true <-> snd a1 = true /\ snd a2 = true)
  /\ fst (fst r) = create_filehash hash_format file_path.
Proof.
  intros Hformats Hnot r a1 a2. subst r a1 a2.
  unfold seal_file_path. rewrite Hformats.
  rewrite bool_decide_false by exact Hnot. simpl.
  rewrite <- app_assoc. simpl.
  split; [reflexivity|]. split; [reflexivity|]. split; [|reflexivity].
  split; [apply andb_prop|]. intros [-> ->]. reflexivity.
Qed.

Lemma seal_file_path_session h file_path hash_format s :
  root_history s = h ->
  snd (fst (seal_file_path h file_path hash_format s)) = verifies h hash_format file_path
  /\ root_history (snd (seal_file_path h file_path hash_format s)) = h.
Proof.
  intros Hs. unfold verifies, seal_file_path, append_file_hash.
  destruct (find_existing_hash_formats_for_path _ _) as [|first rest]; simpl.
  - by rewrite Hs.
  - destruct (negb _); simpl; by rewrite Hs.
Qed.

(** *** record *)

Lemma failures_app h hash_format f1 f2 :
  failures h hash_format (f1 ++ f2)
  = failures h hash_format f1 + failures h hash_format f2.
Proof. unfold failures. by rewrite List.filter_app, length_app. Qed.

Lemma record_effect_app h hash_format f1 f2 v0 v1 v2 :
  record_effect h hash_format f1 v0 v1 -> record_effect h hash_format f2 v1 v2 ->
  record_effect h hash_format (f1 ++ f2) v0 v2.
Proof.
  intros [_ H1] [H2 H3]. split; [exact H2|]. rewrite failures_app. lia.
Qed.

Lemma record_file_effect h hash_format file_path v0 :
  root_history (fst v0) = h ->
  record_effect h hash_format [file_path] v0 (record_file h hash_format file_path v0).
Proof.
  intros Hs. destruct v0 as [s n]. unfold record_file, record_effect, failures.
  destruct (seal_file_path_session h file_path hash_format s Hs) as [Hok Hh].
  destruct (seal_file_path _ _ _ _) as [[hash_string success] s']. simpl in *.
  split; [exact Hh|]. rewrite <- Hok. destruct success; simpl; lia.
Qed.

Lemma record_children_effect h hash_format folder_path children v0 w :
  root_history (fst v0) = h ->
  exists v, for_each children (record_child h hash_format folder_path) v0 w = Ok v w
            /\ record_effect h hash_format (child_files folder_path children) v0 v.
Proof.
  revert v0. induction children as [|[item_name is_dir] rest IH]; intros v0 Hs.
  - exists v0. split; [reflexivity|]. split; [exact Hs|]. unfold failures. simpl. lia.
  - rewrite for_each_cons. unfold bind, record_child. destruct is_dir; simpl.
    + apply IH, Hs.
    + pose proof (record_file_effect h hash_format
                    (Posix.join folder_path item_name) v0 Hs) as He.
      destruct (IH _ (proj1 He)) as (v & Hv & Hrest).
      exists v. split; [exact Hv|].
      exact (record_effect_app _ _ [_] _ _ _ _ He Hrest).
Qed.

Lemma record_walk_effect h hash_format walk v0 w :
  root_history (fst v0) = h ->
  exists v,
    for_each walk
      (fun entry v =>
         let '(folder_path, children) := entry in
         for_each children (record_child h hash_format folder_path) v) v0 w
    = Ok v w
    /\ record_effect h hash_format (files_of walk) v0 v.
Proof.
  revert v0. induction walk as [|[folder_path children] rest IH]; intros v0 Hs.
  - exists v0. split; [reflexivity|]. split; [exact Hs|]. unfold failures. simpl. lia.
  - destruct (record_children_effect h hash_format folder_path children v0 w Hs)
      as (v1 & Hv1 & He1).
    destruct (IH v1 (proj1 He1)) as (v2 & Hv2 & He2).
    exists v2. split.
    + rewrite for_each_cons. unfold bind. by rewrite Hv1.
    + unfold files_of. simpl. by eapply record_effect_app.
Qed.

Lemma record_paths_effect h hash_format paths v0 w :
  root_history (fst v0) = h ->
  exists v, for_each paths (record_path h hash_format) v0 w = Ok v w
            /\ record_effect h hash_format (record_files paths) v0 v.
Proof.
  revert v0. induction paths as [|path rest IH]; intros v0 Hs.
  - exists v0. split; [reflexivity|]. split; [exact Hs|]. unfold failures. simpl. lia.
  - assert (exists v1,
      record_path h hash_format path v0 w = Ok v1 w
      /\ record_effect h hash_format
           (if isdir (absolute path)
            then files_of (post_order_lexicographic (absolute path))
            else [absolute path]) v0 v1) as (v1 & Hv1 & He1).
    { unfold record_path. destruct (isdir (absolute path)).
      - by apply record_walk_effect.
      - eexists. split; [reflexivity|]. by apply record_file_effect. }
    destruct (IH v1 (proj1 He1)) as (v2 & Hv2 & He2).
    exists v2. split.
    + rewrite for_each_cons. unfold bind. by rewrite Hv1.
    + unfold record_files. simpl. by eapply record_effect_app.
Qed.


(** *** A child directory without a finalized hash *)

Lemma seal_child_skips_directory h hash_format folder_path item_name v w :
  seal_child h hash_format folder_path (item_name, true) (v, None) w
  = Ok (v, None) w.
Proof. reflexivity. Qed.

Lemma seal_child_missing_hash h hash_format folder_path item_name v c w :
  dir_hash_mappings v !! Posix.join folder_path item_name = None ->
  seal_child h hash_format folder_path (item_name, true) (v, Some c) w
  = Raise (KeyError (Posix.join folder_path item_name)) w.
Proof. intros Hm. unfold seal_child. by rewrite Hm. Qed.

Lemma seal_children_raise h hash_format folder_path item_name (D : gset string)
    children v c w :
  dom (dir_hash_mappings v) ⊆ D ->
  (item_name, true) ∈ children ->
  Posix.join folder_path item_name ∉ D ->
  exists key,
    for_each children (seal_child h hash_format folder_path) (v, Some c) w
    = Raise (KeyError key) w.
Proof.
  revert v c. induction children as [|[n d] rest IH]; intros v c Hdom Hin Hout.
  - inversion Hin.
  - rewrite for_each_cons. unfold bind.
    destruct d.
    + destruct (dir_hash_mappings v !! Posix.join folder_path n) as [hs|] eqn:Hl.
      * unfold seal_child. rewrite Hl.
        assert (Hne : (item_name, true) <> (n, true)).
        { intros [= ->]. apply Hout, Hdom, elem_of_dom. by eexists. }
        apply elem_of_cons in Hin as [Hin|Hin]; [done|].
        apply IH; [|exact Hin|exact Hout].
        simpl. rewrite dom_delete_L. set_solver.
      * rewrite (seal_child_missing_hash _ _ _ _ _ _ _ Hl). by eexists.
    + apply elem_of_cons in Hin as [Hin|Hin]; [done|].
      unfold seal_child.
      destruct (seal_file_path _ _ _ _) as [[hash_string success] session'].
      apply IH; [exact Hdom|exact Hin|exact Hout].
Qed.

Lemma seal_folder_dom h verbose hash_format directory_hashes (D : gset string)
    folder_path children v w :
  folder_path ∈ D -> dom (dir_hash_mappings v) ⊆ D ->
  holds (seal_folder h verbose hash_format directory_hashes
           (folder_path, children) v w)
        (fun v' _ => dom (dir_hash_mappings v') ⊆ D) (fun _ _ => True).
Proof.
  intros Hf Hdom. unfold seal_folder.
  apply (holds_bind _ _ _ (fun st _ => dom (dir_hash_mappings (fst st)) ⊆ D)).
  - apply (holds_for_each (fun st _ => dom (dir_hash_mappings (fst st)) ⊆ D));
      [|exact Hdom].
    intros [n d] [v' ctx] w1 _ Hv'. unfold seal_child. destruct d.
    + destruct ctx as [c|]; [|exact Hv'].
      destruct (dir_hash_mappings v' !! _); [|exact I].
      simpl in *. rewrite dom_delete_L. set_solver.
    + by destruct (seal_file_path _ _ _ _) as [[hash_string success] session'].
  - intros [v' ctx] w1 Hv'. destruct ctx as [c|]; [|exact Hv'].
    simpl in Hv'. destruct verbose; simpl; rewrite dom_insert_L; set_solver.
Qed.

Lemma seal_walk_dom h verbose hash_format directory_hashes walk v w :
  holds (for_each walk (seal_folder h verbose hash_format directory_hashes) v w)
        (fun v' _ => dom (dir_hash_mappings v')
                     ⊆ dom (dir_hash_mappings v) ∪ list_to_set (fst <$> walk))
        (fun e _ => is_key_error e).
Proof.
  apply (holds_for_each
           (fun v' _ => dom (dir_hash_mappings v')
                        ⊆ dom (dir_hash_mappings v) ∪ list_to_set (fst <$> walk)));
    [|set_solver].
  intros [folder_path children] v1 w1 Hin Hv1.
  pose proof (seal_folder_world h verbose hash_format directory_hashes
                (folder_path, children) v1 w1) as Hw.
  pose proof (seal_folder_dom h verbose hash_format directory_hashes
                (dom (dir_hash_mappings v) ∪ list_to_set (fst <$> walk))
                folder_path children v1 w1) as Hd.
  destruct (seal_folder _ _ _ _ _ _ _) as [v2 w2|e w2]; simpl in *.
  - apply Hd; [|exact Hv1]. apply elem_of_union_r, elem_of_list_to_set.
    apply list_elem_of_fmap. by exists (folder_path, children).
  - apply Hw.
Qed.

Lemma seal_traversal_raises h root_path verbose hash_format s0 w
    pre folder_path children post item_name :
  post_order_lexicographic root_path = pre ++ (folder_path, children) :: post ->
  (item_name, true) ∈ children ->
  Posix.join folder_path item_name ∉ (fst <$> pre) ->
  exists key w', seal_traversal h root_path verbose hash_format true s0 w
                 = Raise (KeyError key) w'.
Proof.
  intros Hwalk Hin Hout. unfold seal_traversal. rewrite Hwalk, for_each_app.
  unfold bind at 1.
  match goal with |- context [for_each pre ?body ?v0 w] =>
    pose proof (seal_walk_dom h verbose hash_format true pre v0 w) as Hpre;
    destruct (for_each pre body v0 w) as [v1 w1|e w1] end; simpl in Hpre.
  - rewrite for_each_cons. unfold bind at 1. unfold seal_folder at 1.
    unfold bind at 1.
    destruct (seal_children_raise h hash_format folder_path item_name
                (list_to_set (fst <$> pre)) children v1 (new_context hash_format) w1)
      as [key Hk]; [set_solver|exact Hin|set_solver|].
    rewrite Hk. by eexists _, _.
  - destruct Hpre as [key ->]. by eexists _, _.
Qed.

(** C4, as the code has it. With directory hashes enabled, a child
    directory that the traversal has not yielded as a folder before its
    parent (a nested history root, say) has no finalized hash to pop: the
    seal stops with a [KeyError] and nothing is committed.  A child
    directory is passed over without a lookup only when directory hashes
    are disabled. *)
Theorem seal_missing_directory_hash_raises (root_path : string) (verbose : bool)
    (hash_format : string) (w : world)
    (pre post : list (string * list (string * bool)))
    (folder_path : string) (children : list (string * bool)) (item_name : string) :
  let r := seal root_path verbose hash_format true w in
  post_order_lexicographic (absolute root_path)
    = pre ++ (folder_path, children) :: post ->
  (item_name, true) ∈ children ->
  Posix.join folder_path item_name ∉ (fst <$> pre) ->
  (exists key, outcome r = Some (KeyError key))
  /\ w_persisted (final r) = w_persisted w
  /\ (forall h v w',
        seal_child h hash_format folder_path (item_name, true) (v, None) w'
        = Ok (v, None) w').
Proof.
  intros r Hwalk Hin Hout.
  destruct (seal_run root_path verbose hash_format true w)
    as [(key & Hk & Hp)|(v & (w1 & w2 & Ht) & _)]; fold r in Hk, Hp || idtac.
  - split; [by exists key|]. split; [exact Hp|]. intros. reflexivity.
  - destruct (seal_traversal_raises (load_from_path (absolute root_path))
                (absolute root_path) verbose hash_format
                {| root_history := load_from_path (absolute root_path);
                   new_hash_entries := [] |} w1
                pre folder_path children post item_name Hwalk Hin Hout)
      as (key & w' & Hr).
    congruence.
Qed.

(** *** What a sealed generation holds *)

Lemma seal_file_path_files_only h file_path hash_format s :
  files_only (new_hash_entries s) ->
  files_only (new_hash_entries (snd (seal_file_path h file_path hash_format s))).
Proof.
  intros Hs. unfold seal_file_path, append_file_hash, files_only in *.
  destruct (find_existing_hash_formats_for_path _ _) as [|first rest]; simpl.
  - apply Forall_app. split; [exact Hs|]. by repeat constructor.
  - destruct (negb _); simpl; repeat (apply Forall_app; split);
      try exact Hs; by repeat constructor.
Qed.

Lemma seal_traversal_files_only h root_path verbose hash_format directory_hashes s0 w :
  files_only (new_hash_entries s0) ->
  holds (seal_traversal h root_path verbose hash_format directory_hashes s0 w)
        (fun v _ => files_only (new_hash_entries (session v))) (fun _ _ => True).
Proof.
  intros Hs. unfold seal_traversal.
  apply (holds_for_each (fun v _ => files_only (new_hash_entries (session v))));
    [|exact Hs].
  intros [folder_path children] v w1 _ Hv. unfold seal_folder.
  apply (holds_bind _ _ _
           (fun st _ => files_only (new_hash_entries (session (fst st))))).
  - apply (holds_for_each
             (fun st _ => files_only (new_hash_entries (session (fst st)))));
      [|exact Hv].
    intros [item_name is_dir] [v' ctx] w2 _ Hv'. unfold seal_child.
    destruct is_dir.
    + destruct ctx as [c|]; [|exact Hv'].
      destruct (dir_hash_mappings v' !! _); [exact Hv'|exact I].
    + pose proof (seal_file_path_files_only h (Posix.join folder_path item_name)
                    hash_format (session v') Hv') as Hf.
      by destruct (seal_file_path _ _ _ _) as [[hash_string success] session'].
  - intros [v' ctx] w2 Hv'. destruct ctx as [c|]; [|exact Hv'].
    destruct verbose; exact Hv'.
Qed.

(** X6. Whatever the tree and the flags, the generation a seal run persists
    holds file observations only. *)
Lemma seal_persists_files_only root_path verbose hash_format directory_hashes w g :
  g ∈ w_persisted (final (seal root_path verbose hash_format directory_hashes w)) ->
  g ∈ w_persisted w \/ files_only (media_hashes g).
Proof.
  intros Hg.
  destruct (seal_run root_path verbose hash_format directory_hashes w)
    as [(key & _ & Hp)|(v & (w1 & w2 & Ht) & Hp & _)]; rewrite Hp in Hg.
  - by left.
  - apply elem_of_app in Hg as [Hg|Hg]; [by left|right].
    apply list_elem_of_singleton in Hg as ->. simpl.
    pose proof (seal_traversal_files_only (load_from_path (absolute root_path))
                  (absolute root_path) verbose hash_format directory_hashes
                  {| root_history := load_from_path (absolute root_path);
                     new_hash_entries := [] |} w1 (Forall_nil_2 _)) as Hf.
    by rewrite Ht in Hf.
Qed.

(** *** seal: what a traversal counts and collects *)

Lemma seal_file_path_entries h file_path hash_format s :
  root_history s = h ->
  new_hash_entries (snd (seal_file_path h file_path hash_format s))
  = new_hash_entries s ++ sealed_observations h hash_format file_path.
Proof.
  intros Hs. unfold sealed_observations, seal_file_path, append_file_hash.
  destruct (find_existing_hash_formats_for_path _ _) as [|first rest]; simpl.
  - reflexivity.
  - destruct (negb _); simpl; [|reflexivity]. by rewrite <- app_assoc.
Qed.

Lemma seal_effect_same h hash_format v v' :
  root_history (session v) = h ->
  not_found_paths v' = not_found_paths v -> session v' = session v ->
  num_failed_verifications v' = num_failed_verifications v ->
  seal_effect h hash_format [] v v'.
Proof.
  intros Hs Hn Hsess Hf. unfold seal_effect, failures; simpl.
  rewrite app_nil_r, Hn, Hsess, Hf.
  repeat split; try done; try lia. set_solver.
Qed.

Lemma seal_effect_nil h hash_format v :
  root_history (session v) = h -> seal_effect h hash_format [] v v.
Proof. intros Hs. by apply seal_effect_same. Qed.

Lemma seal_effect_app h hash_format f1 f2 v0 v1 v2 :
  seal_effect h hash_format f1 v0 v1 -> seal_effect h hash_format f2 v1 v2 ->
  seal_effect h hash_format (f1 ++ f2) v0 v2.
Proof.
  intros (A1 & B1 & C1 & D1) (A2 & B2 & C2 & D2). unfold seal_effect.
  rewrite failures_app, fmap_app, concat_app, list_to_set_app_L.
  repeat split.
  - rewrite A2, A1. set_solver.
  - lia.
  - exact C2.
  - rewrite D2, D1. by rewrite <- app_assoc.
Qed.

Lemma seal_child_effect h hash_format folder_path child v ctx w :
  root_history (session v) = h ->
  holds (seal_child h hash_format folder_path child (v, ctx) w)
        (fun st w' => w' = w
                      /\ seal_effect h hash_format (child_files folder_path [child])
                                     v (fst st)
                      /\ (is_Some (snd st) <-> is_Some ctx))
        (fun e _ => is_key_error e /\ is_Some ctx).
Proof.
  intros Hs. unfold seal_child, child_files. destruct child as [item_name is_dir].
  destruct is_dir; simpl.
  - destruct ctx as [c|]; simpl.
    + destruct (dir_hash_mappings v !! _); simpl.
      * split; [done|]. split; [by apply seal_effect_same|]. by split.
      * split; [by eexists|by eexists].
    + split; [done|]. split; [by apply seal_effect_nil|done].
  - pose proof (seal_file_path_session h (Posix.join folder_path item_name)
                  hash_format (session v) Hs) as [Hok Hh].
    pose proof (seal_file_path_entries h (Posix.join folder_path item_name)
                  hash_format (session v) Hs) as He.
    destruct (seal_file_path _ _ _ _) as [[hash_string success] session'].
    simpl in *. split; [done|]. split.
    + unfold seal_effect, failures; simpl. rewrite app_nil_r, <- Hok.
      repeat split; try done.
      * set_solver.
      * destruct success; simpl; lia.
    + destruct ctx; split; intros [x Hx]; by eexists.
Qed.

Lemma seal_children_effect h hash_format folder_path children v ctx w :
  root_history (session v) = h ->
  holds (for_each children (seal_child h hash_format folder_path) (v, ctx) w)
        (fun st w' => w' = w
                      /\ seal_effect h hash_format (child_files folder_path children)
                                     v (fst st)
                      /\ (is_Some (snd st) <-> is_Some ctx))
        (fun e _ => is_key_error e /\ is_Some ctx).
Proof.
  revert v ctx. induction children as [|child rest IH]; intros v ctx Hs.
  - simpl. split; [done|]. split; [by apply seal_effect_nil|done].
  - rewrite for_each_cons. eapply holds_bind; [by apply seal_child_effect|].
    intros [v1 ctx1] w1 (-> & He1 & Hc1). simpl in He1, Hc1.
    eapply holds_weaken; [apply IH, He1| |].
    + intros [v2 ctx2] w2 (-> & He2 & Hc2). split; [done|]. split.
      * change (child :: rest) with ([child] ++ rest).
        unfold child_files in *. rewrite omap_app. by eapply seal_effect_app.
      * simpl in *. by rewrite Hc2.
    + intros e w2 [He Hc]. split; [done|]. by apply Hc1.
Qed.

Lemma seal_folder_effect h verbose hash_format directory_hashes
    folder_path children v w :
  root_history (session v) = h ->
  holds (seal_folder h verbose hash_format directory_hashes
           (folder_path, children) v w)
        (fun v' _ => seal_effect h hash_format (child_files folder_path children) v v')
        (fun e _ => is_key_error e /\ directory_hashes = true).
Proof.
  intros Hs. unfold seal_folder.
  apply (holds_bind _ _ _
           (fun st _ => seal_effect h hash_format
                          (child_files folder_path children) v (fst st))).
  - eapply holds_weaken; [by apply seal_children_effect| |].
    + by intros st w1 (_ & He & _).
    + intros e w1 [He Hc]. split; [done|].
      destruct directory_hashes; [done|by destruct Hc].
  - intros [v1 ctx1] w1 He. simpl in He.
    destruct ctx1 as [c|]; [|exact He].
    destruct verbose; exact He.
Qed.
Lemma seal_walk_effect h verbose hash_format directory_hashes walk v w :
  root_history (session v) = h ->
  holds (for_each walk (seal_folder h verbose hash_format directory_hashes) v w)
        (fun v' _ => seal_effect h hash_format (files_of walk) v v')
        (fun e _ => is_key_error e /\ directory_hashes = true).
Proof.
  revert v w. induction walk as [|[folder_path children] rest IH]; intros v w Hs.
  - by apply seal_effect_nil.
  - rewrite for_each_cons.
    apply (holds_bind _ _ _
             (fun v' _ => seal_effect h hash_format
                            (child_files folder_path children) v v')).
    { by apply seal_folder_effect. }
    intros v1 w1 He1. pose proof He1 as (_ & _ & Hs1 & _).
    eapply holds_weaken; [apply IH, Hs1| |done].
    intros v2 w2 He2. unfold files_of. simpl. by eapply seal_effect_app.
Qed.

Lemma seal_by_traversal root_path verbose hash_format directory_hashes w :
  let root := absolute root_path in
  let h := load_from_path root in
  seal root_path verbose hash_format directory_hashes w
  = match seal_traversal h root verbose hash_format directory_hashes
            {| root_history := h; new_hash_entries := [] |}
            (seal_start verbose root w) with
    | Raise e w2 => Raise e w2
    | Ok v w2 =>
        let w3 := {| w_log := w_log w2; w_sessions := w_sessions w2;
                     w_persisted :=
                       w_persisted w2 ++ [committed_generation (session v)] |} in
        if bool_decide (0 < num_failed_verifications v)
        then Raise VerificationFailedException w3
        else test_for_missing_files (not_found_paths v) w3
    end.
Proof.
  intros root h. unfold seal, seal_start. fold root h.
  unfold bind, logger_verbose, logger, new_session, ret.
  destruct verbose; simpl;
    destruct (seal_traversal _ _ _ _ _ _ _) as [v w2|e w2]; try reflexivity;
    unfold commit_session, commit, committed_generation;
    by case_bool_decide.
Qed.

(** How a seal run ends: on a failed lookup of a directory hash, with
    nothing persisted, or with the verdict and the generation that its
    files determine. *)
Lemma seal_outcome_cases root_path verbose hash_format directory_hashes w :
  let root := absolute root_path in
  let h := load_from_path root in
  let files := files_of (post_order_lexicographic root) in
  let r := seal root_path verbose hash_format directory_hashes w in
  match seal_traversal h root verbose hash_format directory_hashes
          {| root_history := h; new_hash_entries := [] |}
          (seal_start verbose root w) with
  | Raise e _ =>
      directory_hashes = true /\ is_key_error e /\ outcome r = Some e
      /\ w_persisted (final r) = w_persisted w
  | Ok _ _ =>
      outcome r = seal_verdict (failures h hash_format files)
                               (set_of_file_paths h ∖ list_to_set files)
      /\ w_persisted (final r) = w_persisted w ++ [generation_of h hash_format files]
  end
  /\ w_sessions (final r) = S (w_sessions w).
Proof.
  intros root h files r. subst r. rewrite seal_by_traversal. fold root h.
  pose proof (seal_traversal_world h root verbose hash_format directory_hashes
                {| root_history := h; new_hash_entries := [] |}
                (seal_start verbose root w)) as Hw.
  pose proof (seal_walk_effect h verbose hash_format directory_hashes
                (post_order_lexicographic root)
                {| not_found_paths := set_of_file_paths h;
                   session := {| root_history := h; new_hash_entries := [] |};
                   num_failed_verifications := 0;
                   dir_hash_mappings := ∅ |}
                (seal_start verbose root w) eq_refl) as He.
  fold files in He. unfold seal_traversal in *.
  destruct (for_each _ _ _ _) as [v w2|e w2]; simpl in Hw, He.
  - destruct Hw as [Hsess Hpers]. destruct He as (A & B & C & D). simpl in *.
    assert (Hg : committed_generation (session v) = generation_of h hash_format files).
    { unfold generation_of, committed_generation. simpl. by rewrite C, D. }
    rewrite Hg. unfold seal_verdict. rewrite <- A, <- B.
    case_bool_decide as Hf.
    + rewrite bool_decide_true by lia. simpl. by rewrite Hpers, Hsess.
    + rewrite bool_decide_false by lia.
      pose proof (test_for_missing_files_only_logs (not_found_paths v)
        {| w_log := w_log w2; w_sessions := w_sessions w2;
           w_persisted := w_persisted w2 ++ [generation_of h hash_format files] |})
        as Ht.
      destruct (test_for_missing_files _ _) as [u w3|e w3]; simpl in *.
      * destruct Ht as [-> Hz]. simpl.
        rewrite bool_decide_false; [by rewrite Hpers, Hsess|].
        intros Hne. apply Hne. by apply leibniz_equiv, size_empty_iff.
      * destruct Ht as (-> & [Hs3 Hp3] & Hz & _). simpl in *.
        rewrite bool_decide_true; [by rewrite Hp3, Hs3, Hpers, Hsess|].
        intros Hz'. rewrite Hz', size_empty in Hz. lia.
  - destruct Hw as [Hk [Hsess Hpers]], He as [_ Hd]. simpl in *.
    by rewrite Hpers, Hsess.
Qed.

(** C2. A seal run that ends in a verification failure or a completeness
    failure has committed its session by then: the history holds, after
    the generations it held before, the generation of that session, with
    the observations of every visited file and the creator info of the
    run. *)
Theorem seal_commits_before_failure (root_path : string) (verbose : bool)
    (hash_format : string) (directory_hashes : bool) (w : world) (e : exception) :
  let root := absolute root_path in
  let h := load_from_path root in
  let files := files_of (post_order_lexicographic root) in
  let r := seal root_path verbose hash_format directory_hashes w in
  outcome r = Some e ->
  e = VerificationFailedException \/ e = CompletenessCheckFailedException ->
  w_persisted (final r) = w_persisted w ++ [generation_of h hash_format files]
  /\ exists v w1 w2,
       seal_traversal h root verbose hash_format directory_hashes
         {| root_history := h; new_hash_entries := [] |} w1 = Ok v w2
       /\ generation_of h hash_format files = committed_generation (session v).
Proof.
  intros root h files r Ho He.
  destruct (seal_outcome_cases root_path verbose hash_format directory_hashes w)
    as [Hc _].
  fold root h files r in Hc.
  pose proof (seal_walk_effect h verbose hash_format directory_hashes
                (post_order_lexicographic root)
                {| not_found_paths := set_of_file_paths h;
                   session := {| root_history := h; new_hash_entries := [] |};
                   num_failed_verifications := 0;
                   dir_hash_mappings := ∅ |}
                (seal_start verbose root w) eq_refl) as Hv.
  fold files in Hv. unfold seal_traversal in Hc |- *.
  destruct (for_each (post_order_lexicographic root) _ _ (seal_start verbose root w))
    as [v w2|e' w2] eqn:Ht.
  - destruct Hc as [_ Hp]. split; [exact Hp|].
    exists v, (seal_start verbose root w), w2. split; [exact Ht|].
    simpl in Hv. destruct Hv as (_ & _ & Hh & Hent). simpl in Hent.
    unfold generation_of, committed_generation. simpl. by rewrite Hh, Hent.
  - destruct Hc as (_ & [key ->] & Hk & _). rewrite Ho in Hk.
    destruct He; congruence.
Qed.

(** X1. With directory hashes disabled a seal run always commits: it persists
    the generation of the visited files and ends with the verification
    failure when a file failed, else with the completeness failure when an
    expected path is not a visited file, else normally. *)
Theorem seal_without_directory_hashes (root_path : string) (verbose : bool)
    (hash_format : string) (w : world) :
  let root := absolute root_path in
  let h := load_from_path root in
  let files := files_of (post_order_lexicographic root) in
  let r := seal root_path verbose hash_format false w in
  outcome r = seal_verdict (failures h hash_format files)
                           (set_of_file_paths h ∖ list_to_set files)
  /\ w_persisted (final r) = w_persisted w ++ [generation_of h hash_format files]
  /\ w_sessions (final r) = S (w_sessions w).
Proof.
  intros root h files r.
  destruct (seal_outcome_cases root_path verbose hash_format false w) as [Hc Hs].
  fold root h files r in Hc, Hs.
  destruct (seal_traversal _ _ _ _ _ _ _) as [v w2|e w2].
  - destruct Hc as [Ho Hp]. by repeat split.
  - by destruct Hc as [Hd _].
Qed.
(** *** seal on a post-order traversal *)

Lemma seal_children_found h hash_format folder_path (Y : gset string)
    children v c w (C : gset string) :
  Y ∖ C ⊆ dom (dir_hash_mappings v) ->
  (forall p, p ∈ dir_children folder_path children -> p ∈ Y) ->
  NoDup (dir_children folder_path children) ->
  (forall p, p ∈ dir_children folder_path children -> p ∉ C) ->
  holds (for_each children (seal_child h hash_format folder_path) (v, Some c) w)
        (fun st _ =>
           Y ∖ (C ∪ list_to_set (dir_children folder_path children))
             ⊆ dom (dir_hash_mappings (fst st))
           /\ is_Some (snd st))
        (fun _ _ => False).
Proof.
  revert v c C. induction children as [|[n d] rest IH]; intros v c C Hdom HY Hnd HC.
  - simpl. split; [set_solver|by eexists].
  - rewrite for_each_cons. unfold bind, seal_child. destruct d.
    + simpl in HY, Hnd, HC. apply NoDup_cons in Hnd as [Hp Hnd].
      assert (Hin : Posix.join folder_path n ∈ dom (dir_hash_mappings v)).
      { apply Hdom, elem_of_difference. split; [apply HY; left|apply HC; left]. }
      apply elem_of_dom in Hin as [hs Hl]. rewrite Hl.
      eapply holds_weaken;
        [apply (IH _ _ (C ∪ {[Posix.join folder_path n]}))| |done].
      * simpl. rewrite dom_delete_L. set_solver.
      * intros p Hpin. apply HY. by right.
      * exact Hnd.
      * intros p Hpin. apply not_elem_of_union. split; [apply HC; by right|].
        intros ->%elem_of_singleton. by apply Hp.
      * intros st w' [Hst Hsome]. split; [|exact Hsome]. simpl. set_solver.
    + destruct (seal_file_path _ _ _ _) as [[hash_string success] session'].
      by apply IH.
Qed.

Lemma seal_walk_found h verbose hash_format walk (seen : list string) v w
    (C : gset string) :
  list_to_set seen ∖ C ⊆ dom (dir_hash_mappings v) ->
  children_yielded seen walk = true ->
  NoDup (concat ((fun entry => dir_children (fst entry) (snd entry)) <$> walk)) ->
  (forall p,
      p ∈ concat ((fun entry => dir_children (fst entry) (snd entry)) <$> walk) ->
      p ∉ C) ->
  holds (for_each walk (seal_folder h verbose hash_format true) v w)
        (fun _ _ => True) (fun _ _ => False).
Proof.
  revert seen v w C.
  induction walk as [|[folder_path children] rest IH];
    intros seen v w C Hdom Hy Hnd HC; [done|].
  simpl in Hy, Hnd, HC. apply andb_prop in Hy as [Hall Hy].
  apply NoDup_app in Hnd as (Hnd1 & Hdis & Hnd2).
  rewrite for_each_cons.
  apply (holds_bind _ _ _
           (fun v' _ =>
              list_to_set (folder_path :: seen)
                ∖ (C ∪ list_to_set (dir_children folder_path children))
              ⊆ dom (dir_hash_mappings v'))).
  - unfold seal_folder.
    apply (holds_bind _ _ _
             (fun st _ =>
                list_to_set seen ∖ (C ∪ list_to_set (dir_children folder_path children))
                  ⊆ dom (dir_hash_mappings (fst st))
                /\ is_Some (snd st))).
    + apply seal_children_found; [exact Hdom| |exact Hnd1|].
      * intros p Hp. apply elem_of_list_to_set.
        rewrite forallb_forall in Hall.
        apply list_elem_of_In, Hall in Hp. by apply bool_decide_eq_true in Hp.
      * intros p Hp. apply HC, elem_of_app. by left.
    + intros [v1 ctx1] w1 [Hv1 [c1 Hc]]. simpl in Hv1, Hc. subst ctx1.
      destruct verbose; simpl; rewrite dom_insert_L; set_solver.
  - intros v1 w1 Hv1.
    apply (IH (folder_path :: seen) v1 w1
              (C ∪ list_to_set (dir_children folder_path children)));
      [exact Hv1|exact Hy|exact Hnd2|].
    intros p Hp. apply not_elem_of_union. split.
    + apply HC, elem_of_app. by right.
    + intros Hq%elem_of_list_to_set. by apply (Hdis p).
Qed.

(** X2. On a post-order traversal no lookup of a directory hash fails: a seal
    run with directory hashes enabled ends with the same verdict and
    persists the same generation as one with them disabled. *)
Theorem seal_post_order_never_fails_lookup (root_path : string) (verbose : bool)
    (hash_format : string) (w : world) :
  let root := absolute root_path in
  let h := load_from_path root in
  let files := files_of (post_order_lexicographic root) in
  let r := seal root_path verbose hash_format true w in
  post_order (post_order_lexicographic root) ->
  outcome r = seal_verdict (failures h hash_format files)
                           (set_of_file_paths h ∖ list_to_set files)
  /\ w_persisted (final r) = w_persisted w ++ [generation_of h hash_format files]
  /\ outcome r = outcome (seal root_path verbose hash_format false w)
  /\ w_persisted (final r)
     = w_persisted (final (seal root_path verbose hash_format false w)).
Proof.
  intros root h files r [Hy Hnd].
  destruct (seal_outcome_cases root_path verbose hash_format true w) as [Hon _].
  destruct (seal_outcome_cases root_path verbose hash_format false w) as [Hoff _].
  fold root h files r in Hon, Hoff.
  pose proof (seal_walk_found h verbose hash_format (post_order_lexicographic root) []
                {| not_found_paths := set_of_file_paths h;
                   session := {| root_history := h; new_hash_entries := [] |};
                   num_failed_verifications := 0;
                   dir_hash_mappings := ∅ |}
                (seal_start verbose root w) ∅) as Hfound.
  unfold seal_traversal in Hon.
  destruct (for_each _ (seal_folder h verbose hash_format true) _ _) as [v w2|e w2].
  - destruct Hon as [Ho Hp].
    destruct (seal_traversal h root verbose hash_format false _ _) as [v' w2'|e w2'].
    + destruct Hoff as [Ho' Hp']. rewrite Ho, Hp, Ho', Hp'. done.
    + by destruct Hoff as [Hd _].
  - exfalso. apply Hfound; [set_solver|exact Hy|exact Hnd|set_solver].
Qed.

(** *** The hash of one directory *)

Lemma child_pair_delete hash_format folder_path p (m : gmap string string) children :
  p ∉ dir_children folder_path children ->
  child_pair hash_format folder_path (delete p m) <$> children
  = child_pair hash_format folder_path m <$> children.
Proof.
  induction children as [|[n d] rest IH]; intros Hp; [done|].
  rewrite !fmap_cons. destruct d; simpl in Hp.
  - apply not_elem_of_cons in Hp as [Hne Hp]. f_equal; [|by apply IH].
    unfold child_pair. simpl. by rewrite lookup_delete_ne.
  - f_equal. by apply IH.
Qed.

Lemma seal_file_path_hash h file_path hash_format s :
  fst (fst (seal_file_path h file_path hash_format s))
  = create_filehash hash_format file_path.
Proof.
  unfold seal_file_path.
  destruct (find_existing_hash_formats_for_path _ _) as [|first rest]; [done|].
  by destruct (negb _).
Qed.

Lemma seal_children_feed h hash_format folder_path children v c w :
  NoDup (dir_children folder_path children) ->
  (forall p, p ∈ dir_children folder_path children ->
             is_Some (dir_hash_mappings v !! p)) ->
  exists v' c',
    for_each children (seal_child h hash_format folder_path) (v, Some c) w
    = Ok (v', Some c') w
    /\ context_format c' = context_format c
    /\ context_fed c'
       = context_fed c
         ++ (child_pair hash_format folder_path (dir_hash_mappings v) <$> children)
    /\ (forall p,
          dir_hash_mappings v' !! p
          = if bool_decide (p ∈ dir_children folder_path children) then None
            else dir_hash_mappings v !! p).
Proof.
  revert v c. induction children as [|[n d] rest IH]; intros v c Hnd Hsome.
  - exists v, c. simpl. rewrite app_nil_r. repeat split.
  - rewrite for_each_cons. unfold bind, seal_child. destruct d.
    + simpl in Hnd, Hsome. apply NoDup_cons in Hnd as [Hp Hnd].
      destruct (Hsome (Posix.join folder_path n)) as [hs Hl]; [by left|].
      rewrite Hl.
      destruct (IH {| not_found_paths := not_found_paths v;
                      session := session v;
                      num_failed_verifications := num_failed_verifications v;
                      dir_hash_mappings :=
                        delete (Posix.join folder_path n) (dir_hash_mappings v) |}
                   (append_hash c hs n) Hnd) as (v' & c' & Hrun & Hfmt & Hfed & Hm).
      { intros p Hpin. simpl. rewrite lookup_delete_ne.
        - apply Hsome. by right.
        - intros <-. by apply Hp. }
      exists v', c'. split; [exact Hrun|]. split; [exact Hfmt|]. split.
      * rewrite Hfed. simpl. rewrite child_pair_delete by exact Hp.
        rewrite <- app_assoc. simpl. unfold child_pair at 2. simpl. by rewrite Hl.
      * intros p. rewrite Hm. simpl.
        destruct (decide (p = Posix.join folder_path n)) as [->|Hne].
        -- rewrite (bool_decide_true (_ ∈ _ :: _)) by left.
           case_bool_decide; [done|apply lookup_delete_eq].
        -- rewrite lookup_delete_ne by done.
           repeat case_bool_decide; try done.
           ++ exfalso. match goal with Hn : _ ∉ _ :: _ |- _ => apply Hn end. by right.
           ++ match goal with Hi : _ ∈ _ :: _ |- _ =>
                apply elem_of_cons in Hi as [Hi|Hi] end; done.
    + pose proof (seal_file_path_hash h (Posix.join folder_path n) hash_format
                    (session v)) as Hh.
      destruct (seal_file_path _ _ _ _) as [[hash_string success] session'].
      simpl in Hh. subst hash_string.
      destruct (IH {| not_found_paths :=
                        not_found_paths v ∖ {[Posix.join folder_path n]};
                      session := session';
                      num_failed_verifications :=
                        if success then num_failed_verifications v
                        else S (num_failed_verifications v);
                      dir_hash_mappings := dir_hash_mappings v |}
                   (append_hash c (create_filehash hash_format
                                     (Posix.join folder_path n)) n) Hnd Hsome)
        as (v' & c' & Hrun & Hfmt & Hfed & Hm).
      exists v', c'. split; [exact Hrun|]. split; [exact Hfmt|]. split.
      * rewrite Hfed. simpl. by rewrite <- app_assoc.
      * exact Hm.
Qed.

(** X3. The hash of a directory is the digest of its children's (hash, name)
    pairs in the order the traversal lists them, a file child giving the
    hash of the file and a directory child the hash finalized for it
    before; the children's finalized hashes are taken out of the mapping
    and the directory's own is put in. *)
Theorem seal_folder_directory_hash (h : History) (verbose : bool)
    (hash_format folder_path : string) (children : list (string * bool))
    (v : seal_vars) (w : world) :
  NoDup (dir_children folder_path children) ->
  (forall p, p ∈ dir_children folder_path children ->
             is_Some (dir_hash_mappings v !! p)) ->
  let dir_hash :=
    directory_digest hash_format
      (child_pair hash_format folder_path (dir_hash_mappings v) <$> children) in
  exists v' w',
    seal_folder h verbose hash_format true (folder_path, children) v w = Ok v' w'
    /\ dir_hash_mappings v' !! folder_path = Some dir_hash
    /\ (forall p, p <> folder_path ->
                  dir_hash_mappings v' !! p
                  = if bool_decide (p ∈ dir_children folder_path children) then None
                    else dir_hash_mappings v !! p)
    /\ w_log w' = if verbose then w_log w ++ [VerboseDirHash folder_path dir_hash]
                  else w_log w.
Proof.
  intros Hnd Hsome dir_hash.
  destruct (seal_children_feed h hash_format folder_path children v
              (new_context hash_format) w Hnd Hsome)
    as (v1 & c1 & Hrun & Hfmt & Hfed & Hm).
  unfold seal_folder, bind. rewrite Hrun.
  assert (Hd : final_hash_str c1 = dir_hash).
  { unfold final_hash_str. by rewrite Hfmt, Hfed. }
  rewrite Hd. destruct verbose; simpl; eexists _, _; (split; [reflexivity|]); simpl.
  all: split; [apply lookup_insert_eq|].
  all: split; [|reflexivity].
  all: intros p Hne; rewrite lookup_insert_ne by done; apply Hm.
Qed.
(** *** What seal lists as missing *)

(** X4. A seal run that ends in a completeness failure had no failed
    verification, and the paths it lists as missing are exactly the
    expected paths that are not paths of visited files. *)
Theorem seal_lists_missing (root_path : string) (verbose : bool)
    (hash_format : string) (directory_hashes : bool) (w : world) :
  let root := absolute root_path in
  let h := load_from_path root in
  let files := files_of (post_order_lexicographic root) in
  let r := seal root_path verbose hash_format directory_hashes w in
  outcome r = Some CompletenessCheckFailedException ->
  failures h hash_format files = 0
  /\ set_of_file_paths h ∖ list_to_set files <> ∅
  /\ last (w_log (final r))
     = Some (ErrorMissingFiles (set_of_file_paths h ∖ list_to_set files)).
Proof.
  intros root h files r Ho.
  destruct (seal_outcome_cases root_path verbose hash_format directory_hashes w)
    as [Hc _].
  fold root h files r in Hc. subst r. pose proof Ho as Ho'.
  rewrite seal_by_traversal in Ho |- *. fold root h in Ho |- *.
  pose proof (seal_walk_effect h verbose hash_format directory_hashes
                (post_order_lexicographic root)
                {| not_found_paths := set_of_file_paths h;
                   session := {| root_history := h; new_hash_entries := [] |};
                   num_failed_verifications := 0;
                   dir_hash_mappings := ∅ |}
                (seal_start verbose root w) eq_refl) as He.
  fold files in He. unfold seal_traversal in *.
  destruct (for_each _ _ _ _) as [v w2|e w2]; simpl in He.
  - destruct He as (A & B & _). simpl in A, B. destruct Hc as [Hv _].
    rewrite Ho' in Hv. unfold seal_verdict in Hv.
    case_bool_decide as Hf; [done|]. case_bool_decide as Hm; [|done].
    split; [lia|]. split; [exact Hm|].
    simpl in Ho |- *. rewrite bool_decide_false in Ho |- * by lia.
    pose proof (test_for_missing_files_only_logs (not_found_paths v)
      {| w_log := w_log w2; w_sessions := w_sessions w2;
         w_persisted := w_persisted w2 ++ [committed_generation (session v)] |})
      as Ht.
    destruct (test_for_missing_files _ _) as [u w3|e w3]; [done|].
    destruct Ht as (_ & _ & _ & Hlog). simpl. rewrite Hlog, A. apply last_snoc.
  - destruct Hc as (_ & [key ->] & _). simpl in Ho. done.
Qed.

(** *** Sealing a file in a format the history has, or a new file *)

(** X7. When the history holds no hash for a file, or holds one in the
    requested format, sealing the file appends one observation, in the
    requested format, and succeeds exactly when that append does. *)
Theorem seal_file_path_single_format (h : History) (file_path hash_format : string)
    (session : MHLGenerationCreationSession) :
  let formats :=
    find_existing_hash_formats_for_path h (get_relative_file_path h file_path) in
  formats = [] \/ hash_format ∈ formats ->
  let r := seal_file_path h file_path hash_format session in
  let a := append_file_hash session file_path (getsize file_path)
             (getmtime file_path) hash_format
             (create_filehash hash_format file_path) in
  new_hash_entries (snd r)
    = new_hash_entries session
      ++ [FileObservation file_path (getsize file_path) (getmtime file_path)
            hash_format (create_filehash hash_format file_path)]
  /\ snd r = fst a
  /\ snd (fst r) = snd a
  /\ fst (fst r) = create_filehash hash_format file_path.
Proof.
  intros formats Hf r a. subst r a formats. unfold seal_file_path.
  destruct (find_existing_hash_formats_for_path _ _) as [|first rest]; [done|].
  destruct Hf as [Hf|Hf]; [done|].
  rewrite bool_decide_true by exact Hf. done.
Qed.

(** *** What record persists *)

Lemma record_file_entries h hash_format file_path v0 :
  root_history (fst v0) = h ->
  root_history (fst (record_file h hash_format file_path v0)) = h
  /\ new_hash_entries (fst (record_file h hash_format file_path v0))
     = new_hash_entries (fst v0) ++ sealed_observations h hash_format file_path.
Proof.
  intros Hs. destruct v0 as [s n]. unfold record_file.
  destruct (seal_file_path_session h file_path hash_format s Hs) as [_ Hh].
  pose proof (seal_file_path_entries h file_path hash_format s Hs) as He.
  by destruct (seal_file_path _ _ _ _) as [[hash_string success] s'].
Qed.

Lemma record_children_entries h hash_format folder_path children v0 w :
  root_history (fst v0) = h ->
  exists v, for_each children (record_child h hash_format folder_path) v0 w = Ok v w
            /\ root_history (fst v) = h
            /\ new_hash_entries (fst v)
               = new_hash_entries (fst v0)
                 ++ concat (sealed_observations h hash_format
                              <$> child_files folder_path children).
Proof.
  revert v0. induction children as [|[item_name is_dir] rest IH]; intros v0 Hs.
  - exists v0. simpl. by rewrite app_nil_r.
  - rewrite for_each_cons. unfold bind, record_child. destruct is_dir; simpl.
    + apply IH, Hs.
    + destruct (record_file_entries h hash_format
                  (Posix.join folder_path item_name) v0 Hs) as [Hh He].
      destruct (IH _ Hh) as (v & Hv & Hhv & Hev).
      exists v. split; [exact Hv|]. split; [exact Hhv|].
      rewrite Hev, He. by rewrite <- app_assoc.
Qed.

Lemma record_walk_entries h hash_format walk v0 w :
  root_history (fst v0) = h ->
  exists v,
    for_each walk
      (fun entry v =>
         let '(folder_path, children) := entry in
         for_each children (record_child h hash_format folder_path) v) v0 w
    = Ok v w
    /\ root_history (fst v) = h
    /\ new_hash_entries (fst v)
       = new_hash_entries (fst v0)
         ++ concat (sealed_observations h hash_format <$> files_of walk).
Proof.
  revert v0. induction walk as [|[folder_path children] rest IH]; intros v0 Hs.
  - exists v0. simpl. by rewrite app_nil_r.
  - destruct (record_children_entries h hash_format folder_path children v0 w Hs)
      as (v1 & Hv1 & Hh1 & He1).
    destruct (IH v1 Hh1) as (v2 & Hv2 & Hh2 & He2).
    exists v2. split; [|split; [exact Hh2|]].
    + rewrite for_each_cons. unfold bind. by rewrite Hv1.
    + rewrite He2, He1. unfold files_of. simpl.
      by rewrite fmap_app, concat_app, <- app_assoc.
Qed.

Lemma record_paths_entries h hash_format paths v0 w :
  root_history (fst v0) = h ->
  exists v, for_each paths (record_path h hash_format) v0 w = Ok v w
            /\ root_history (fst v) = h
            /\ new_hash_entries (fst v)
               = new_hash_entries (fst v0)
                 ++ concat (sealed_observations h hash_format <$> record_files paths).
Proof.
  revert v0. induction paths as [|path rest IH]; intros v0 Hs.
  - exists v0. simpl. by rewrite app_nil_r.
  - assert (exists v1,
      record_path h hash_format path v0 w = Ok v1 w
      /\ root_history (fst v1) = h
      /\ new_hash_entries (fst v1)
         = new_hash_entries (fst v0)
           ++ concat (sealed_observations h hash_format
                        <$> (if isdir (absolute path)
                             then files_of (post_order_lexicographic (absolute path))
                             else [absolute path]))) as (v1 & Hv1 & Hh1 & He1).
    { unfold record_path. destruct (isdir (absolute path)).
      - by apply record_walk_entries.
      - eexists. split; [reflexivity|].
        destruct (record_file_entries h hash_format (absolute path) v0 Hs) as [Hh He].
        split; [exact Hh|]. rewrite He. simpl. by rewrite app_nil_r. }
    destruct (IH v1 Hh1) as (v2 & Hv2 & Hh2 & He2).
    exists v2. split; [|split; [exact Hh2|]].
    + rewrite for_each_cons. unfold bind. by rewrite Hv1.
    + rewrite He2, He1. unfold record_files. simpl.
      by rewrite fmap_app, concat_app, <- app_assoc.
Qed.

(** X8. A record run over a non-empty list of paths opens one session and
    persists one generation: the observations of the files it sealed, in
    sealing order, under the creator tool name seal. *)
Theorem record_persists_sealed_files (root_path : string) (paths : list string)
    (verbose : bool) (hash_format : string) (w : world) :
  let h := load_from_path (absolute root_path) in
  let r := record root_path paths verbose hash_format w in
  paths <> [] ->
  w_persisted (final r)
    = w_persisted w ++ [generation_of h hash_format (record_files paths)]
  /\ tool_name (tool (creator_info (generation_of h hash_format (record_files paths))))
     = "seal"
  /\ w_sessions (final r) = S (w_sessions w).
Proof.
  intros h r Hpaths. subst r.
  remember (record root_path paths verbose hash_format w) as r eqn:Hr.
  unfold record in Hr. fold h in Hr.
  rewrite bool_decide_false in Hr by (by destruct paths).
  unfold bind at 1 in Hr. unfold new_session at 1 in Hr. unfold bind at 1 in Hr.
  match type of Hr with context [for_each paths ?body ?v0 ?w1] =>
    destruct (record_paths_entries h hash_format paths v0 w1 eq_refl)
      as ([s n] & Hv & Hh & He) end.
  rewrite Hv in Hr. simpl in Hh, He. unfold bind, commit_session, commit in Hr.
  assert (Hg : committed_generation s
               = generation_of h hash_format (record_files paths)).
  { unfold generation_of, committed_generation. simpl. by rewrite Hh, He. }
  unfold committed_generation in Hg. simpl in Hg.
  case_bool_decide; subst r; simpl; rewrite Hg; done.
Qed.

(** X10. A record run without paths is a usage error raised before the history
    is touched: no session is opened, nothing is logged or persisted. *)
Theorem record_without_paths (root_path : string) (verbose : bool)
    (hash_format : string) (w : world) :
  record root_path [] verbose hash_format w
  = Raise (BadParameter "no file paths gives") w
  /\ exit_code (outcome (record root_path [] verbose hash_format w)) = 2%Z.
Proof. done. Qed.

(** *** How a check run ends *)

(** X11. A check run over an existing history succeeds exactly when no visited
    file mismatches its original entry, every expected path is a visited
    file with an original entry, and every visited file has one. *)
Theorem check_succeeds_iff (root_path : string) (verbose : bool) (w : world) :
  let root := absolute root_path in
  let h := load_from_path root in
  let files := files_of (post_order_lexicographic root) in
  let r := check root_path verbose w in
  length (hash_lists h) <> 0 ->
  outcome r = None
  <-> omap (mismatch_report h) files = []
      /\ set_of_file_paths h
           ∖ list_to_set (List.filter (fun p => negb (is_new h p)) files) = ∅
      /\ List.filter (is_new h) files = [].
Proof.
  intros root h files r Hh.
  destruct (check_run root_path verbose w Hh)
    as (v & w2 & (A & B & C & _) & Ho & _).
  fold root h files r in A, B, C, Ho. simpl in A, B, C.
  rewrite Ho. unfold check_verdict. rewrite A, B, C.
  set (missing := set_of_file_paths h
                    ∖ list_to_set (List.filter (fun p => negb (is_new h p)) files)).
  assert (Hm : size missing = 0 <-> missing = ∅).
  { split; [intros Hq; by apply leibniz_equiv, size_empty_iff
           |intros ->; apply size_empty]. }
  split.
  - intros Hv. repeat case_bool_decide; try done.
    split; [apply nil_length_inv; lia|].
    split; [apply Hm; lia|apply nil_length_inv; lia].
  - intros (-> & Hz & ->). apply Hm in Hz. simpl.
    rewrite (bool_decide_false (0 < size missing)) by lia. done.
Qed.

(** X12. A check run over an existing history reports as new exactly the
    visited files without an original hash entry, each once and in
    visiting order, whatever the run ends with. *)
Theorem check_reports_new_files (root_path : string) (verbose : bool) (w : world) :
  let root := absolute root_path in
  let h := load_from_path root in
  let files := files_of (post_order_lexicographic root) in
  let r := check root_path verbose w in
  length (hash_lists h) <> 0 ->
  List.filter is_new_file_record (w_log (final r))
  = List.filter is_new_file_record (w_log w)
    ++ (ErrorNewFile <$> List.filter (is_new h) files).
Proof.
  intros root h files r Hh.
  destruct (check_run root_path verbose w Hh)
    as (v & w2 & (_ & _ & _ & _ & E & _) & Ho & Hc & Hn).
  fold root h files r in E, Ho, Hc, Hn.
  assert (Hw1 : List.filter is_new_file_record
                  (w_log (final (logger_verbose verbose (VerboseCheckFolder root) w)))
                = List.filter is_new_file_record (w_log w)).
  { destruct verbose; simpl; [|done]. by rewrite List.filter_app, app_nil_r. }
  rewrite Hw1 in E.
  destruct (decide (outcome r = Some CompletenessCheckFailedException)) as [Hy|Hy].
  - rewrite (Hc Hy), List.filter_app, app_nil_r. exact E.
  - rewrite (Hn Hy). exact E.
Qed.

(** X13. A check run that ends in a completeness failure found no mismatch,
    and the paths it lists as missing are exactly the expected paths that
    are not visited files with an original hash entry. *)
Theorem check_lists_missing (root_path : string) (verbose : bool) (w : world) :
  let root := absolute root_path in
  let h := load_from_path root in
  let files := files_of (post_order_lexicographic root) in
  let r := check root_path verbose w in
  outcome r = Some CompletenessCheckFailedException ->
  omap (mismatch_report h) files = []
  /\ last (w_log (final r))
     = Some (ErrorMissingFiles
               (set_of_file_paths h
                  ∖ list_to_set (List.filter (fun p => negb (is_new h p)) files))).
Proof.
  intros root h files r Hy.
  destruct (decide (length (hash_lists h) = 0)) as [Hz|Hz].
  { pose proof (check_no_history root_path verbose w Hz) as Ho.
    fold r in Ho. congruence. }
  destruct (check_run root_path verbose w Hz)
    as (v & w2 & (A & _ & C & _) & Ho & Hc & _).
  fold root h files r in A, C, Ho, Hc. simpl in A, C.
  split.
  - rewrite Ho in Hy. unfold check_verdict in Hy.
    case_bool_decide; [done|]. apply nil_length_inv. lia.
  - rewrite (Hc Hy), C. apply last_snoc.
Qed.

(** X14. Without a history a check run stops at once: no file is visited or
    hashed, and the only output is the verbose opening line. *)
Theorem check_without_history (root_path : string) (verbose : bool) (w : world) :
  let root := absolute root_path in
  length (hash_lists (load_from_path root)) = 0 ->
  check root_path verbose w
  = Raise (NoMHLHistoryException root)
          {| w_log := if verbose then w_log w ++ [VerboseCheckFolder root]
                      else w_log w;
             w_sessions := w_sessions w;
             w_persisted := w_persisted w |}.
Proof.
  intros root Hh. unfold check, bind, logger_verbose, logger, ret. fold root.
  destruct verbose; simpl; rewrite bool_decide_true by exact Hh.
  - reflexivity.
  - by destruct w.
Qed.

(** *** The root path *)

Lemma prefix_sep_append (rest s : string) :
  String.prefix "/" (String "/" rest +:+ s) = true.
Proof.
  change (String "/" rest +:+ s) with (String "/" (rest +:+ s)).
  cbn [String.prefix]. destruct (Ascii.ascii_dec "/" "/"); [|done].
  by destruct (rest +:+ s).
Qed.

(** X15. The path a command works on is absolute whenever the working
    directory is: an absolute path is taken as it is, a relative one is
    joined to the working directory (the working directory, a separator
    unless it ends in one, then the path), and resolving again changes
    nothing. *)
Theorem absolute_is_absolute (path : string) :
  Posix.isabs getcwd = true ->
  Posix.isabs (absolute path) = true
  /\ absolute (absolute path) = absolute path
  /\ (Posix.isabs path = true -> absolute path = path)
  /\ (Posix.isabs path = false ->
      absolute path = Posix.join getcwd path
      /\ absolute path
         = if Posix.endswith_sep getcwd then getcwd +:+ path
           else getcwd +:+ "/" +:+ path).
Proof.
  intros Hcwd.
  assert (Hne : getcwd <> "").
  { intros Hz. rewrite Hz in Hcwd. discriminate Hcwd. }
  assert (Hrel : Posix.isabs path = false ->
                 absolute path
                 = if Posix.endswith_sep getcwd then getcwd +:+ path
                   else getcwd +:+ "/" +:+ path).
  { intros Hp. unfold absolute. rewrite Hp. unfold Posix.join.
    unfold Posix.isabs in Hp. rewrite Hp.
    rewrite (bool_decide_false (getcwd = "")) by exact Hne. reflexivity. }
  assert (Habs : Posix.isabs (absolute path) = true).
  { destruct (Posix.isabs path) eqn:Hp.
    - unfold absolute. by rewrite Hp.
    - rewrite (Hrel eq_refl). unfold Posix.isabs, Posix.sep in *.
      destruct getcwd as [|c rest]; [done|].
      cbn [String.prefix] in Hcwd.
      destruct (Ascii.ascii_dec "/" c) as [<-|]; [|discriminate Hcwd].
      destruct (Posix.endswith_sep _); apply prefix_sep_append. }
  split; [exact Habs|]. split; [|split].
  - unfold absolute at 1. by rewrite Habs.
  - intros Hp. unfold absolute. by rewrite Hp.
  - intros Hp. split; [|by apply Hrel]. unfold absolute. by rewrite Hp.
Qed.
(** *** record and seal side by side *)

Lemma record_run root_path paths verbose hash_format w :
  let h := load_from_path (absolute root_path) in
  let r := record root_path paths verbose hash_format w in
  paths <> [] ->
  w_persisted (final r)
    = w_persisted w ++ [generation_of h hash_format (record_files paths)]
  /\ outcome r = seal_verdict (failures h hash_format (record_files paths)) ∅.
Proof.
  intros h r Hpaths. subst r.
  remember (record root_path paths verbose hash_format w) as r eqn:Hr.
  unfold record in Hr. fold h in Hr.
  rewrite bool_decide_false in Hr by (by destruct paths).
  unfold bind at 1 in Hr. unfold new_session at 1 in Hr. unfold bind at 1 in Hr.
  match type of Hr with context [for_each paths ?body ?v0 ?w1] =>
    destruct (record_paths_entries h hash_format paths v0 w1 eq_refl)
      as ([s n] & Hv & Hh & He);
    destruct (record_paths_effect h hash_format paths v0 w1 eq_refl)
      as ([s' n'] & Hv' & [_ Hn]) end.
  rewrite Hv in Hv'. injection Hv' as <- <-.
  rewrite Hv in Hr. simpl in Hh, He, Hn. unfold bind, commit_session, commit in Hr.
  assert (Hg : committed_generation s
               = generation_of h hash_format (record_files paths)).
  { unfold generation_of, committed_generation. simpl. by rewrite Hh, He. }
  unfold committed_generation in Hg. simpl in Hg. unfold seal_verdict.
  rewrite (bool_decide_false ((∅ : gset string) <> ∅))
    by (intros Hne; by apply Hne).
  case_bool_decide; subst r; simpl; rewrite Hg.
  - by rewrite bool_decide_true by lia.
  - by rewrite bool_decide_false by lia.
Qed.

(** C8. A record run over a non-empty list of paths commits its session,
    the generation of the files it sealed, and then exits with 0 when
    every file it sealed verified and with 12 otherwise; it never ends in
    a completeness failure, whatever the history expects. *)
Theorem record_commits_without_completeness (root_path : string)
    (paths : list string) (verbose : bool) (hash_format : string) (w : world) :
  let h := load_from_path (absolute root_path) in
  let r := record root_path paths verbose hash_format w in
  paths <> [] ->
  w_persisted (final r)
    = w_persisted w ++ [generation_of h hash_format (record_files paths)]
  /\ (failures h hash_format (record_files paths) = 0 ->
      outcome r = None /\ exit_code (outcome r) = 0%Z)
  /\ (failures h hash_format (record_files paths) <> 0 ->
      outcome r = Some VerificationFailedException
      /\ exit_code (outcome r) = 12%Z)
  /\ outcome r <> Some CompletenessCheckFailedException.
Proof.
  intros h r Hpaths.
  destruct (record_run root_path paths verbose hash_format w Hpaths) as [Hp Ho].
  fold h r in Hp, Ho. split; [exact Hp|].
  rewrite Ho. unfold seal_verdict.
  rewrite (bool_decide_false ((∅ : gset string) <> ∅))
    by (intros Hne; by apply Hne).
  case_bool_decide; repeat split; done.
Qed.

(** X9. Recording the root folder persists the very generation that sealing
    it without directory hashes persists, and fails its verification
    exactly when the seal does; what record leaves out is the test for
    missing paths. *)
Theorem record_of_root_matches_seal (root_path : string) (verbose : bool)
    (hash_format : string) (w : world) :
  let rs := seal root_path verbose hash_format false w in
  let rr := record root_path [root_path] verbose hash_format w in
  isdir (absolute root_path) = true ->
  w_persisted (final rr) = w_persisted (final rs)
  /\ (outcome rr = Some VerificationFailedException
      <-> outcome rs = Some VerificationFailedException)
  /\ (outcome rs = None -> outcome rr = None)
  /\ (outcome rs = Some CompletenessCheckFailedException -> outcome rr = None).
Proof.
  intros rs rr Hdir.
  destruct (record_run root_path [root_path] verbose hash_format w) as [Hp Ho];
    [done|].
  fold rr in Hp, Ho.
  assert (Hfiles : record_files [root_path]
                   = files_of (post_order_lexicographic (absolute root_path))).
  { unfold record_files. simpl. rewrite Hdir. apply app_nil_r. }
  rewrite Hfiles in Hp, Ho.
  destruct (seal_outcome_cases root_path verbose hash_format false w) as [Hc _].
  fold rs in Hc.
  destruct (seal_traversal _ _ _ _ _ _ _) as [v w2|e w2];
    [|by destruct Hc as [Hd _]].
  destruct Hc as [Hos Hps]. rewrite Hp, Hps, Ho, Hos. unfold seal_verdict.
  split; [done|]. repeat case_bool_decide; done.
Qed.

(** *** What the persisted observations say *)

Lemma sealed_observations_true h hash_format file_path o :
  o ∈ sealed_observations h hash_format file_path ->
  exists f, o = FileObservation file_path (getsize file_path) (getmtime file_path)
                  f (create_filehash f file_path).
Proof.
  unfold sealed_observations, seal_file_path, append_file_hash.
  destruct (find_existing_hash_formats_for_path _ _) as [|first rest]; simpl.
  - intros ->%list_elem_of_singleton. by eexists.
  - destruct (negb _); simpl.
    + intros [->| ->%list_elem_of_singleton]%elem_of_cons; by eexists.
    + intros ->%list_elem_of_singleton. by eexists.
Qed.

Lemma sealed_observations_requested h hash_format file_path :
  FileObservation file_path (getsize file_path) (getmtime file_path)
    hash_format (create_filehash hash_format file_path)
  ∈ sealed_observations h hash_format file_path.
Proof.
  unfold sealed_observations, seal_file_path, append_file_hash.
  destruct (find_existing_hash_formats_for_path _ _) as [|first rest]; simpl.
  - apply list_elem_of_here.
  - destruct (negb _); simpl; [right|]; apply list_elem_of_here.
Qed.

(** X5. The generation a seal run without directory hashes persists records
    the tree as it is: every visited file is in it with its current hash
    in the requested format, whether or not that hash verified, and every
    observation in it is the size, date and current hash of a visited
    file. *)
Theorem seal_persists_current_hashes (root_path : string) (verbose : bool)
    (hash_format : string) (w : world) :
  let root := absolute root_path in
  let files := files_of (post_order_lexicographic root) in
  let r := seal root_path verbose hash_format false w in
  exists g,
    w_persisted (final r) = w_persisted w ++ [g]
    /\ (forall p, p ∈ files ->
                  FileObservation p (getsize p) (getmtime p) hash_format
                    (create_filehash hash_format p) ∈ media_hashes g)
    /\ (forall o, o ∈ media_hashes g ->
                  exists p f, p ∈ files
                              /\ o = FileObservation p (getsize p) (getmtime p) f
                                        (create_filehash f p)).
Proof.
  intros root files r.
  destruct (seal_outcome_cases root_path verbose hash_format false w) as [Hc _].
  fold root files r in Hc.
  destruct (seal_traversal _ _ _ _ _ _ _) as [v w2|e w2];
    [|by destruct Hc as [Hd _]].
  destruct Hc as [_ Hp]. eexists. split; [exact Hp|]. simpl. split.
  - intros p Hin. apply list_elem_of_In, in_concat.
    exists (sealed_observations (load_from_path root) hash_format p).
    split; apply list_elem_of_In.
    + apply list_elem_of_fmap. by exists p.
    + apply sealed_observations_requested.
  - intros o Hin. apply list_elem_of_In, in_concat in Hin as (l & Hl & Ho).
    apply list_elem_of_In, list_elem_of_fmap in Hl as (p & -> & Hp').
    apply list_elem_of_In, sealed_observations_true in Ho as [f ->].
    by exists p, f.
Qed.

End Facts.


(** ** The commands on concrete trees *)

Section Runs.

Import Scenario.

(** C1, on the code. Sealing the first tree with directory hashes enabled
    computes a hash for both directories it visits, but the generation it
    commits holds the two file observations only: no directory hash is
    handed to the session. *)
Theorem seal_records_no_directory_hash :
  let r := @seal first_tree "/root" true "xxh64" true initial_world in
  outcome r = None
  /\ w_log (final r)
     = [ VerboseSealFolder "/root";
         VerboseDirHash "/root/A" "xxh64(xxh64(A1)A1.txt)";
         VerboseDirHash "/root" "xxh64(xxh64(xxh64(A1)A1.txt)Axxh64(stuff)Stuff.txt)" ]
  /\ (media_hashes <$> w_persisted (final r))
     = [ [ FileObservation "/root/A/A1.txt" 2 0 "xxh64" "xxh64(A1)";
           FileObservation "/root/Stuff.txt" 5 0 "xxh64" "xxh64(stuff)" ] ].
Proof. vm_compute. repeat split; reflexivity. Qed.

(** C3, on the code. In the renamed-file scenario the altered file still
    fails its verification and [/root/B/B1.txt] is the one expected path
    the traversal did not find; the seal ends with the verification
    failure, exit code 12, and never gets to list the missing path. *)
Theorem seal_renamed_file_verdict :
  let r := @seal renamed "/root" true "xxh64" true initial_world in
  outcome r = Some VerificationFailedException
  /\ @exit_code renamed (outcome r) = 12%Z
  /\ holds (@seal_traversal renamed (@load_from_path renamed "/root") "/root" true
              "xxh64" true
              {| root_history := @load_from_path renamed "/root";
                 new_hash_entries := [] |} initial_world)
           (fun v _ => elements (not_found_paths v) = ["/root/B/B1.txt"]
                       /\ num_failed_verifications v = 1)
           (fun _ _ => False)
  /\ List.filter (fun l => match l with ErrorMissingFiles _ => true | _ => false end)
                 (w_log (final r)) = [].
Proof. vm_compute. repeat split; reflexivity. Qed.

(** The altered and renamed tree: the seal ends in a verification failure
    and has persisted the generation of its session. *)
Lemma seal_commits_before_failure_witness :
  outcome (@seal renamed "/root" true "xxh64" true initial_world)
  = Some VerificationFailedException
  /\ w_persisted (final (@seal renamed "/root" true "xxh64" true initial_world))
     = w_persisted initial_world
       ++ [@generation_of renamed (@load_from_path renamed "/root") "xxh64"
             (files_of (@post_order_lexicographic renamed "/root"))].
Proof.
  split; [vm_compute; reflexivity|].
  destruct (@seal_commits_before_failure renamed "/root" true "xxh64" true
              initial_world VerificationFailedException) as [Hp _].
  - vm_compute; reflexivity.
  - left; reflexivity.
  - exact Hp.
Defined.

(** C4, against the claim as stated. The child directory [Nested] has no
    finalized hash in the mapping; the seal does not pass over it, it
    stops on it with a [KeyError], before anything is committed. *)
Lemma seal_nested_root_not_skipped :
  let h := @load_from_path nested "/root" in
  @seal_child nested h "xxh64" "/root" ("Nested", true)
    ({| not_found_paths := @set_of_file_paths nested h;
        session := {| root_history := h; new_hash_entries := [] |};
        num_failed_verifications := 0;
        dir_hash_mappings := ∅ |},
     Some (new_context "xxh64")) initial_world
  = Raise (KeyError "/root/Nested") initial_world
  /\ outcome (@seal nested "/root" false "xxh64" true initial_world)
     = Some (KeyError "/root/Nested")
  /\ w_persisted (final (@seal nested "/root" false "xxh64" true initial_world)) = [].
Proof. vm_compute. repeat split; reflexivity. Qed.

Lemma seal_missing_directory_hash_raises_witness :
  (exists key,
      outcome (@seal nested "/root" false "xxh64" true initial_world)
      = Some (KeyError key))
  /\ w_persisted (final (@seal nested "/root" false "xxh64" true initial_world))
     = w_persisted initial_world.
Proof.
  destruct (@seal_missing_directory_hash_raises nested "/root" false "xxh64"
              initial_world [] [] "/root"
              [("Nested", true); ("Stuff.txt", false)] "Nested")
    as (Hk & Hp & _).
  - vm_compute; reflexivity.
  - apply list_elem_of_here.
  - apply not_elem_of_nil.
  - split; [exact Hk|exact Hp].
Defined.

(** A file recorded in md5 only, sealed in xxh64. *)
Lemma seal_file_path_cross_format_witness :
  let h := @load_from_path md5_only "/root" in
  let r := @seal_file_path md5_only h "/root/Stuff.txt" "xxh64"
             {| root_history := h; new_hash_entries := [] |} in
  new_hash_entries (snd r)
  = [ FileObservation "/root/Stuff.txt" 5 0 "md5" "md5(stuff)";
      FileObservation "/root/Stuff.txt" 5 0 "xxh64" "xxh64(stuff)" ]
  /\ snd (fst r) = true.
Proof.
  intros h r.
  destruct (@seal_file_path_cross_format md5_only h "/root/Stuff.txt" "xxh64"
              {| root_history := h; new_hash_entries := [] |} "md5" [])
    as (He & _ & Hs & _).
  - vm_compute; reflexivity.
  - intros Hin. apply list_elem_of_singleton in Hin. discriminate Hin.
  - split; [exact He|]. apply Hs. split; vm_compute; reflexivity.
Defined.

(** C6, against the claim as stated. Checking the altered and renamed
    tree finds the new file [B/B2.txt], yet the run ends with the
    verification failure of [A/A2.txt], not with new-files-found. *)
Lemma check_new_file_masked :
  let r := @check renamed "/root" false initial_world in
  List.filter is_new_file_record (w_log (final r)) = [ErrorNewFile "/root/B/B2.txt"]
  /\ outcome r = Some VerificationFailedException
  /\ outcome r <> Some NewFilesFoundException.
Proof. vm_compute. repeat split; [reflexivity..|discriminate]. Qed.

(** A sealed tree with one added file and nothing else amiss: the check
    ends with new-files-found. *)
Lemma check_new_files_outcome_witness :
  let r := @check added "/root" false initial_world in
  ErrorNewFile "/root/New.txt" ∈ w_log (final r)
  /\ outcome r = Some NewFilesFoundException.
Proof.
  intros r.
  destruct (@check_new_files_outcome added "/root" false initial_world
              "/root/New.txt") as [Hlog Hout].
  - vm_compute. discriminate.
  - vm_compute. apply list_elem_of_here.
  - vm_compute; reflexivity.
  - split; [exact Hlog|].
    etransitivity; [exact Hout|]. vm_compute. reflexivity.
Defined.

Lemma check_verifies_in_original_format_witness :
  List.filter is_mismatch_record
    (w_log (final (@check renamed "/root" false initial_world)))
  = [ErrorHashMismatch "/root/A/A2.txt" "xxh64" "xxh64(A2)" "xxh64(A2!!)"].
Proof.
  destruct (@check_verifies_in_original_format renamed "/root" false initial_world)
    as [Hlog _].
  - vm_compute. discriminate.
  - etransitivity; [exact Hlog|]. vm_compute. reflexivity.
Defined.

(** Recording the renamed file and the folder [A]: the session is
    committed and the altered [A/A2.txt] makes the run exit with 12. *)
Lemma record_commits_without_completeness_witness :
  let r := @record renamed "/root" ["/root/B/B2.txt"; "/root/A"] false "xxh64"
             initial_world in
  w_persisted (final r)
  = w_persisted initial_world
    ++ [@generation_of renamed (@load_from_path renamed "/root") "xxh64"
          (@record_files renamed ["/root/B/B2.txt"; "/root/A"])]
  /\ @exit_code renamed (outcome r) = 12%Z
  /\ outcome r <> Some CompletenessCheckFailedException.
Proof.
  intros r.
  destruct (@record_commits_without_completeness renamed "/root"
              ["/root/B/B2.txt"; "/root/A"] false "xxh64" initial_world)
    as (Hc & _ & Hf & Hn).
  - discriminate.
  - split; [exact Hc|]. split; [|exact Hn].
    apply Hf. vm_compute. discriminate.
Defined.

(** The directory [emptyFolder] is expected by the history and present in
    the tree: it stays in the not-found set of both commands. *)
Lemma directory_paths_never_discarded_witness :
  outcome (@seal kept_folder "/root" false "xxh64" false initial_world)
  = Some CompletenessCheckFailedException
  /\ exists paths,
      "/root/emptyFolder" ∈ paths
      /\ last (w_log (final (@seal kept_folder "/root" false "xxh64" false
                               initial_world)))
         = Some (ErrorMissingFiles paths).
Proof.
  destruct (@directory_paths_never_discarded kept_folder "/root" false "xxh64"
              false initial_world "/root/emptyFolder")
    as (_ & _ & _ & _ & Hs & _).
  - apply (bool_decide_unpack _). vm_compute. exact I.
  - apply (bool_decide_unpack _). vm_compute. exact I.
  - assert (Ho : outcome (@seal kept_folder "/root" false "xxh64" false initial_world)
                 = Some CompletenessCheckFailedException)
      by (vm_compute; reflexivity).
    split; [exact Ho|]. exact (Hs Ho).
Defined.

(** ** Further runs *)

(** The altered and renamed tree is traversed in post-order: sealing it
    with directory hashes ends as sealing it without. *)
Lemma seal_post_order_never_fails_lookup_witness :
  outcome (@seal renamed "/root" false "xxh64" true initial_world)
  = outcome (@seal renamed "/root" false "xxh64" false initial_world)
  /\ w_persisted (final (@seal renamed "/root" false "xxh64" true initial_world))
     = w_persisted (final (@seal renamed "/root" false "xxh64" false initial_world)).
Proof.
  destruct (@seal_post_order_never_fails_lookup renamed "/root" false "xxh64"
              initial_world) as (_ & _ & Ho & Hp).
  - split; [vm_compute; reflexivity|].
    apply (bool_decide_unpack _). vm_compute. exact I.
  - split; [exact Ho|exact Hp].
Defined.

(** The folder [A] of the scenario tree, once [A/AA] has its hash. *)
Lemma seal_folder_directory_hash_witness :
  let h := @load_from_path renamed "/root" in
  let v := {| not_found_paths := ∅;
              session := {| root_history := h; new_hash_entries := [] |};
              num_failed_verifications := 0;
              dir_hash_mappings := {["/root/A/AA" := "xxh64(xxh64(AA1)AA1.txt)"]} |} in
  exists v' w',
    @seal_folder renamed h false "xxh64" true
      ("/root/A", [("A1.txt", false); ("A2.txt", false); ("AA", true)]) v initial_world
    = Ok v' w'
    /\ dir_hash_mappings v' !! "/root/A"
       = Some "xxh64(xxh64(A1)A1.txtxxh64(A2!!)A2.txtxxh64(xxh64(AA1)AA1.txt)AA)"
    /\ dir_hash_mappings v' !! "/root/A/AA" = None.
Proof.
  intros h v.
  destruct (@seal_folder_directory_hash renamed h false "xxh64" "/root/A"
              [("A1.txt", false); ("A2.txt", false); ("AA", true)] v initial_world)
    as (v' & w' & Hrun & Hdir & Hrest & _).
  - apply (bool_decide_unpack _). vm_compute. exact I.
  - intros p Hp. change (p ∈ ["/root/A/AA"]) in Hp.
    apply list_elem_of_singleton in Hp as ->. by eexists.
  - exists v', w'. split; [exact Hrun|]. split.
    + etransitivity; [exact Hdir|]. vm_compute. reflexivity.
    + etransitivity; [apply Hrest; discriminate|]. reflexivity.
Defined.

(** The expected directory that is still there is what seal lists. *)
Lemma seal_lists_missing_witness :
  last (w_log (final (@seal kept_folder "/root" false "xxh64" false initial_world)))
  = Some (ErrorMissingFiles
            (@set_of_file_paths kept_folder (@load_from_path kept_folder "/root")
               ∖ list_to_set
                   (files_of (@post_order_lexicographic kept_folder "/root")))).
Proof.
  destruct (@seal_lists_missing kept_folder "/root" false "xxh64" false initial_world)
    as (_ & _ & Hl).
  - vm_compute; reflexivity.
  - exact Hl.
Defined.

(** A file whose xxh64 hash the history already holds. *)
Lemma seal_file_path_single_format_witness :
  let h := @load_from_path renamed "/root" in
  let r := @seal_file_path renamed h "/root/Stuff.txt" "xxh64"
             {| root_history := h; new_hash_entries := [] |} in
  new_hash_entries (snd r)
  = [FileObservation "/root/Stuff.txt" 5 0 "xxh64" "xxh64(stuff)"].
Proof.
  intros h r.
  destruct (@seal_file_path_single_format renamed h "/root/Stuff.txt" "xxh64"
              {| root_history := h; new_hash_entries := [] |}) as (He & _).
  - right. vm_compute. apply list_elem_of_here.
  - exact He.
Defined.

Lemma record_persists_sealed_files_witness :
  (media_hashes
     <$> w_persisted (final (@record renamed "/root" ["/root/B/B2.txt"] false "xxh64"
                               initial_world)))
  = [[FileObservation "/root/B/B2.txt" 2 0 "xxh64" "xxh64(B1)"]].
Proof.
  destruct (@record_persists_sealed_files renamed "/root" ["/root/B/B2.txt"] false
              "xxh64" initial_world) as (Hp & _).
  - discriminate.
  - etransitivity; [exact (f_equal (fmap media_hashes) Hp)|].
    vm_compute. reflexivity.
Defined.

(** Checking a sealed tree that has not changed succeeds. *)
Lemma check_succeeds_iff_witness :
  outcome (@check unchanged "/root" false initial_world) = None.
Proof.
  apply (@check_succeeds_iff unchanged "/root" false initial_world).
  - vm_compute. discriminate.
  - split; [vm_compute; reflexivity|]. split; [|vm_compute; reflexivity].
    apply (bool_decide_unpack _). vm_compute. exact I.
Defined.

Lemma check_reports_new_files_witness :
  List.filter is_new_file_record
    (w_log (final (@check renamed "/root" true initial_world)))
  = [ErrorNewFile "/root/B/B2.txt"].
Proof.
  etransitivity.
  - apply (@check_reports_new_files renamed "/root" true initial_world).
    vm_compute. discriminate.
  - vm_compute. reflexivity.
Defined.

(** Checking the tree whose history expects a directory. *)
Lemma check_lists_missing_witness :
  last (w_log (final (@check kept_folder "/root" false initial_world)))
  = Some (ErrorMissingFiles
            (@set_of_file_paths kept_folder (@load_from_path kept_folder "/root")
               ∖ list_to_set
                   (List.filter
                      (fun p => negb (@is_new kept_folder
                                        (@load_from_path kept_folder "/root") p))
                      (files_of (@post_order_lexicographic kept_folder "/root"))))).
Proof.
  destruct (@check_lists_missing kept_folder "/root" false initial_world) as [_ Hl].
  - vm_compute; reflexivity.
  - exact Hl.
Defined.

(** Checking the tree that was never sealed. *)
Lemma check_without_history_witness :
  outcome (@check first_tree "/root" true initial_world)
  = Some (NoMHLHistoryException "/root").
Proof.
  rewrite (@check_without_history first_tree "/root" true initial_world).
  - reflexivity.
  - vm_compute; reflexivity.
Defined.

Lemma absolute_is_absolute_witness :
  @absolute renamed "root/A" = "/root/A"
  /\ @absolute renamed (@absolute renamed "root/A") = @absolute renamed "root/A".
Proof.
  destruct (@absolute_is_absolute renamed "root/A") as (_ & Hi & _ & Hrel).
  - vm_compute; reflexivity.
  - split; [|exact Hi].
    etransitivity; [apply Hrel; vm_compute; reflexivity|].
    vm_compute. reflexivity.
Defined.

Lemma record_of_root_matches_seal_witness :
  w_persisted (final (@record renamed "/root" ["/root"] false "xxh64" initial_world))
  = w_persisted (final (@seal renamed "/root" false "xxh64" false initial_world)).
Proof.
  destruct (@record_of_root_matches_seal renamed "/root" false "xxh64" initial_world)
    as [Hp _].
  - vm_compute; reflexivity.
  - exact Hp.
Defined.

(** Sealing the first tree with directory hashes: the generation holds
    file observations only. *)
Lemma seal_persists_files_only_witness :
  Forall (fun g => files_only (media_hashes g))
    (w_persisted (final (@seal first_tree "/root" false "xxh64" true initial_world))).
Proof.
  apply Forall_forall. intros g Hg.
  destruct (@seal_persists_files_only first_tree "/root" false "xxh64" true
              initial_world g Hg) as [Hin|Hf].
  - inversion Hin.
  - exact Hf.
Defined.

End Runs.
